(** * polkadot_verifier: the Python binding of the SR25519 signature verifier

    A shallow embedding of [python/polkadot_verifier.py].  The module loads
    the shared library, declares the prototypes of its two exported
    functions, and offers [verify] and [get_version].

    Python values are modelled as the interpreter has them: a [str] is a
    sequence of code points, a [bytes] object a sequence of bytes,
    [str.encode()] and [bytes.decode()] are the strict UTF-8 codec, an
    exception is an outcome of its own.  The module's globals are an explicit
    state that every function threads, and every foreign call is recorded
    with the C strings the native side reads. *)

From Stdlib Require Import List NArith ZArith Bool Lia String Ascii.
From Stdlib Require Import Strings.Byte.
Import ListNotations.

Local Open Scope N_scope.
Local Open Scope list_scope.

(** ** Python [str] and [bytes] *)

(** A code point.  Python's are below [0x110000]; nothing below needs the
    bound, so the theorems hold for every list of numbers and in particular
    for every Python string. *)
Definition codepoint := N.
Definition str := list codepoint.
Definition bytes := list byte.

(** An ASCII literal of the source as a [str] and as a [bytes]. *)
Definition py_str (s : string) : str := map N_of_ascii (list_ascii_of_string s).
Definition py_bytes (s : string) : bytes := list_byte_of_string s.

(** The C cast [(char) n]: the low eight bits. *)
Definition byte_of_N (n : N) : byte :=
  match Byte.of_N (n mod 256) with
  | Some b => b
  | None => x00
  end.

(** ** Exceptions and outcomes *)

Inductive exn :=
| UnicodeEncodeError (object : str) (start : nat)
| UnicodeDecodeError (object : bytes) (start : nat)
| AttributeError.

Inductive outcome (A : Type) :=
| Return (a : A)
| Raise (e : exn).
Arguments Return {A} a.
Arguments Raise {A} e.

(** ** [str.encode()]: strict UTF-8 *)

Definition is_surrogate (c : codepoint) : bool :=
  (0xD800 <=? c) && (c <=? 0xDFFF).

(** The bytes of one code point that is not a surrogate. *)
Definition utf8_char (c : codepoint) : bytes :=
  if c <? 0x80 then
    [byte_of_N c]
  else if c <? 0x800 then
    [byte_of_N (N.lor 0xC0 (N.shiftr c 6));
     byte_of_N (N.lor 0x80 (N.land c 0x3F))]
  else if c <? 0x10000 then
    [byte_of_N (N.lor 0xE0 (N.shiftr c 12));
     byte_of_N (N.lor 0x80 (N.land (N.shiftr c 6) 0x3F));
     byte_of_N (N.lor 0x80 (N.land c 0x3F))]
  else
    [byte_of_N (N.lor 0xF0 (N.shiftr c 18));
     byte_of_N (N.lor 0x80 (N.land (N.shiftr c 12) 0x3F));
     byte_of_N (N.lor 0x80 (N.land (N.shiftr c 6) 0x3F));
     byte_of_N (N.lor 0x80 (N.land c 0x3F))].

(** [utf8_encode_from object pos s] encodes the suffix [s] of [object] that
    starts at index [pos]; the first surrogate met raises. *)
Fixpoint utf8_encode_from (object : str) (pos : nat) (s : str) : outcome bytes :=
  match s with
  | [] => Return []
  | c :: s' =>
      if is_surrogate c then Raise (UnicodeEncodeError object pos)
      else match utf8_encode_from object (S pos) s' with
           | Return bs => Return (utf8_char c ++ bs)
           | Raise e => Raise e
           end
  end.

Definition encode (s : str) : outcome bytes := utf8_encode_from s 0 s.

(** A string [encode] accepts: no surrogate in it. *)
Definition encodable (s : str) : bool := forallb (fun c => negb (is_surrogate c)) s.

(** ** [bytes.decode()]: strict UTF-8 *)

Definition is_continuation (n : N) : bool := (0x80 <=? n) && (n <=? 0xBF).

(** The second byte of a three-byte sequence: no overlong form after [0xE0],
    no surrogate after [0xED]. *)
Definition second_of_three (n0 n1 : N) : bool :=
  if n0 =? 0xE0 then (0xA0 <=? n1) && (n1 <=? 0xBF)
  else if n0 =? 0xED then (0x80 <=? n1) && (n1 <=? 0x9F)
  else is_continuation n1.

(** The second byte of a four-byte sequence: no overlong form after [0xF0],
    nothing above [0x10FFFF] after [0xF4]. *)
Definition second_of_four (n0 n1 : N) : bool :=
  if n0 =? 0xF0 then (0x90 <=? n1) && (n1 <=? 0xBF)
  else if n0 =? 0xF4 then (0x80 <=? n1) && (n1 <=? 0x8F)
  else is_continuation n1.

Definition low6 (n : N) : N := N.land n 0x3F.

Definition cons_outcome (c : codepoint) (o : outcome str) : outcome str :=
  match o with
  | Return s => Return (c :: s)
  | Raise e => Raise e
  end.

Fixpoint utf8_decode_from (object : bytes) (pos : nat) (bs : bytes) : outcome str :=
  let bad := Raise (UnicodeDecodeError object pos) in
  match bs with
  | [] => Return []
  | b0 :: r0 =>
      let n0 := Byte.to_N b0 in
      if n0 <? 0x80 then
        cons_outcome n0 (utf8_decode_from object (1 + pos) r0)
      else if n0 <? 0xC2 then bad
      else if n0 <? 0xE0 then
        match r0 with
        | b1 :: r1 =>
            let n1 := Byte.to_N b1 in
            if is_continuation n1 then
              cons_outcome (N.lor (N.shiftl (N.land n0 0x1F) 6) (low6 n1))
                           (utf8_decode_from object (2 + pos) r1)
            else bad
        | _ => bad
        end
      else if n0 <? 0xF0 then
        match r0 with
        | b1 :: b2 :: r2 =>
            let n1 := Byte.to_N b1 in
            let n2 := Byte.to_N b2 in
            if second_of_three n0 n1 && is_continuation n2 then
              cons_outcome (N.lor (N.shiftl (N.land n0 0x0F) 12)
                              (N.lor (N.shiftl (low6 n1) 6) (low6 n2)))
                           (utf8_decode_from object (3 + pos) r2)
            else bad
        | _ => bad
        end
      else if n0 <? 0xF5 then
        match r0 with
        | b1 :: b2 :: b3 :: r3 =>
            let n1 := Byte.to_N b1 in
            let n2 := Byte.to_N b2 in
            let n3 := Byte.to_N b3 in
            if second_of_four n0 n1 && is_continuation n2 && is_continuation n3 then
              cons_outcome (N.lor (N.shiftl (N.land n0 0x07) 18)
                              (N.lor (N.shiftl (low6 n1) 12)
                                 (N.lor (N.shiftl (low6 n2) 6) (low6 n3))))
                           (utf8_decode_from object (4 + pos) r3)
            else bad
        | _ => bad
        end
      else bad
  end.

Definition decode (b : bytes) : outcome str := utf8_decode_from b 0 b.

(** ** The foreign boundary (ctypes) *)

(** What C code reads through a [char*] that points at the buffer of a
    [bytes] object: the bytes before the first null. *)
Fixpoint c_string (buf : bytes) : bytes :=
  match buf with
  | [] => []
  | b :: rest => if Byte.eqb b x00 then [] else b :: c_string rest
  end.

(** [c_char_p] as an argument type passes a [bytes] object as a [char*]. *)
Definition c_char_p (b : bytes) : bytes := c_string b.

(** [c_char_p] as a result type: [None] for a null pointer, otherwise a
    [bytes] copy of the C string found there. *)
Definition c_char_p_result (p : option bytes) : option bytes := option_map c_string p.

(** [c_uint8] as a result type: the Python [int] of the byte. *)
Definition c_uint8 (b : byte) : Z := Z.of_N (Byte.to_N b).

(** The handle of the loaded shared library.  The prototypes the module
    declares ([argtypes = [c_char_p, c_char_p, c_char_p]], [restype = c_uint8];
    [argtypes = []], [restype = c_char_p]) are the types of the two symbols. *)
Module CDLL.
Record t := {
  verify_polkadot_signature : bytes -> bytes -> bytes -> byte;
  get_version : unit -> option bytes
}.
End CDLL.

Inductive cvalue :=
| CUInt8 (b : byte)
| CCharP (p : option bytes).

(** One foreign call as the native side sees it. *)
Record ffi_call := {
  symbol : string;
  c_args : list bytes;
  c_result : cvalue
}.

(** ** Module state and the monad of the module's functions *)

Record Globals := {
  lib_path : string;
  lib : CDLL.t
}.

(** The module body: the path of the library next to the package, and the
    handle the loader returns for it. *)
Definition module_init (root : string) (load : string -> CDLL.t) : Globals :=
  let lib_path := (root ++ "/target/release/libpolkadot_sig_verifier.so")%string in
  {| lib_path := lib_path; lib := load lib_path |}.

(** A computation reads and may write the globals, returns or raises, and
    leaves the list of the foreign calls it made. *)
Definition M (A : Type) : Type := Globals -> outcome A * Globals * list ffi_call.

Definition ret {A} (a : A) : M A := fun g => (Return a, g, []).

Definition raise {A} (e : exn) : M A := fun g => (Raise e, g, []).

Definition bind {A B} (m : M A) (k : A -> M B) : M B :=
  fun g =>
    match m g with
    | (Return a, g1, t1) => let '(r, g2, t2) := k a g1 in (r, g2, t1 ++ t2)
    | (Raise e, g1, t1) => (Raise e, g1, t1)
    end.

Definition lift {A} (o : outcome A) : M A := fun g => (o, g, []).

Definition global_lib : M CDLL.t := fun g => (Return (lib g), g, []).

Definition foreign (sym : string) (args : list bytes) (r : cvalue) : M unit :=
  fun g => (Return tt, g, [{| symbol := sym; c_args := args; c_result := r |}]).

Declare Scope py_scope.
Delimit Scope py_scope with py.
Notation "x <- m ;; k" := (bind m (fun x => k))
  (at level 61, m at next level, right associativity) : py_scope.
Notation "m ;; k" := (bind m (fun _ => k))
  (at level 61, right associativity) : py_scope.
Local Open Scope py_scope.

Definition outcome_of {A} (r : outcome A * Globals * list ffi_call) : outcome A := fst (fst r).
Definition globals_of {A} (r : outcome A * Globals * list ffi_call) : Globals := snd (fst r).
Definition calls_of {A} (r : outcome A * Globals * list ffi_call) : list ffi_call := snd r.

(** [lib.verify_polkadot_signature(a, s, w)] on three [bytes] objects. *)
Definition call_verify_polkadot_signature (l : CDLL.t) (a s w : bytes) : M Z :=
  let ca := c_char_p a in
  let cs := c_char_p s in
  let cw := c_char_p w in
  let r := CDLL.verify_polkadot_signature l ca cs cw in
  foreign "verify_polkadot_signature" [ca; cs; cw] (CUInt8 r) ;;
  ret (c_uint8 r).

(** [lib.get_version()]. *)
Definition call_get_version (l : CDLL.t) : M (option bytes) :=
  let p := CDLL.get_version l tt in
  foreign "get_version" [] (CCharP p) ;;
  ret (c_char_p_result p).

(** ** The module's functions *)

(** A formatted string literal: literal text and replacement fields, joined.
    A field holding a [str] formats to the string itself. *)
Inductive fpart :=
| Literal (s : string)
| Field (v : str).

Definition fstring (parts : list fpart) : str :=
  List.concat (map (fun p => match p with Literal s => py_str s | Field v => v end) parts).

(** [f"<Bytes>{message}</Bytes>"] *)
Definition wrapped_message (message : str) : str :=
  fstring [Literal "<Bytes>"; Field message; Literal "</Bytes>"].

Definition verify (address signature message : str) : M bool :=
  let wrapped_message := wrapped_message message in
  l <- global_lib ;;
  a <- lift (encode address) ;;
  s <- lift (encode signature) ;;
  w <- lift (encode wrapped_message) ;;
  result <- call_verify_polkadot_signature l a s w ;;
  ret (result =? 1)%Z.

Definition get_version : M str :=
  l <- global_lib ;;
  r <- call_get_version l ;;
  match r with
  | Some b => lift (decode b)
  | None => raise AttributeError
  end.

(** ** The native library

    The shared library is built from sources that are not part of the Python
    package; what the binding relies on is taken from the specification. *)

Module Native.

(** Modelled from the spec: the error kinds of the native pipeline, which
    are absent from the Python package. *)
Inductive Error :=
| InvalidEncoding
| InvalidLength
| ChecksumMismatch
| InvalidPoint
| InvalidScalar
| EquationMismatch.

Definition PublicKey := bytes.
Definition Signature64 := bytes.
Definition NetworkPrefix := N.

Section Pipeline.

(** The stages the library composes: the SS58 decoder, the signature
    decoder and the SR25519 verifier. *)
Variable decode_ss58 : bytes -> Error + (PublicKey * NetworkPrefix).
Variable decode_signature : bytes -> Error + Signature64.
Variable sr25519_verify : PublicKey -> Signature64 -> bytes -> Error + bool.

(** Modelled from the spec: the orchestration inside the native library.
    Decode the address, decode the signature, verify; the first error ends
    the pipeline.  The message arrives wrapped: the envelope is put on by
    the Python caller. *)
Definition verify_signature (address signature message : bytes) : Error + bool :=
  match decode_ss58 address with
  | inl e => inl e
  | inr (pubkey, _) =>
      match decode_signature signature with
      | inl e => inl e
      | inr sig => sr25519_verify pubkey sig message
      end
  end.

(** Modelled from the spec: a signature is valid when every stage succeeds
    and the verifier accepts. *)
Definition valid (address signature message : bytes) : bool :=
  match verify_signature address signature message with
  | inr true => true
  | _ => false
  end.

(** Modelled from the spec: the exported [verify_polkadot_signature] of
    the shared library, whose source is not part of the Python package.
    It returns [1] for a valid signature and [0] for an invalid one or
    for any error of any stage. *)
Definition verify_polkadot_signature (address signature message : bytes) : byte :=
  match verify_signature address signature message with
  | inr true => x01
  | inr false => x00
  | inl _ => x00
  end.

(** Modelled from the spec: the exported [get_version] of the shared
    library, which returns a pointer to a process-wide static string,
    the same at every call. *)
Definition get_version (VERSION : bytes) (_ : unit) : option bytes := Some VERSION.

Definition library (VERSION : bytes) : CDLL.t :=
  {| CDLL.verify_polkadot_signature := verify_polkadot_signature;
     CDLL.get_version := get_version VERSION |}.

End Pipeline.

(** *** Semantic versions *)

Definition is_digit (b : byte) : bool :=
  let n := Byte.to_N b in (48 <=? n) && (n <=? 57).

Definition is_letter (b : byte) : bool :=
  let n := Byte.to_N b in
  ((65 <=? n) && (n <=? 90)) || ((97 <=? n) && (n <=? 122)).

(** A character of an identifier: a digit, a letter or a hyphen. *)
Definition is_ident_char (b : byte) : bool :=
  is_digit b || is_letter b || Byte.eqb b "-"%byte.

(** The fields of [bs] between the separators [sep]. *)
Fixpoint split_on (sep : byte) (bs : bytes) : list bytes :=
  match bs with
  | [] => [[]]
  | b :: rest =>
      if Byte.eqb b sep then [] :: split_on sep rest
      else match split_on sep rest with
           | field :: fields => (b :: field) :: fields
           | [] => [[b]]
           end
  end.

(** [bs] cut at the first [sep], when there is one. *)
Fixpoint cut_at (sep : byte) (bs : bytes) : bytes * option bytes :=
  match bs with
  | [] => ([], None)
  | b :: rest =>
      if Byte.eqb b sep then ([], Some rest)
      else let '(before, after) := cut_at sep rest in (b :: before, after)
  end.

(** Digits only, not empty, no leading zero. *)
Definition numeric_identifier (bs : bytes) : bool :=
  match bs with
  | [] => false
  | [b] => is_digit b
  | b :: _ => is_digit b && negb (Byte.eqb b "0"%byte) && forallb is_digit bs
  end.

Definition build_identifier (bs : bytes) : bool :=
  match bs with
  | [] => false
  | _ => forallb is_ident_char bs
  end.

Definition prerelease_identifier (bs : bytes) : bool :=
  build_identifier bs && (negb (forallb is_digit bs) || numeric_identifier bs).

(** Modelled from the spec: the shape of the static semantic-version string
    the library's [get_version] points to.
    MAJOR.MINOR.PATCH, then an optional [-] pre-release and an optional
    [+] build, each a list of identifiers between dots. *)
Definition is_semver (v : bytes) : bool :=
  let '(front, build) := cut_at "+"%byte v in
  let '(core, pre) := cut_at "-"%byte front in
  match split_on "."%byte core with
  | [major; minor; patch] =>
      numeric_identifier major && numeric_identifier minor && numeric_identifier patch
  | _ => false
  end
  && match pre with
     | Some p => forallb prerelease_identifier (split_on "."%byte p)
     | None => true
     end
  && match build with
     | Some b => forallb build_identifier (split_on "."%byte b)
     | None => true
     end.

End Native.

(** * Definitions used by the statements *)

(** ** The codec on accepted input *)

(** The bytes of a string none of whose code points is refused. *)
Definition utf8_bytes (s : str) : bytes := flat_map utf8_char s.

(** ** The envelope on bytes *)

Definition open_tag : bytes := py_bytes "<Bytes>".
Definition close_tag : bytes := py_bytes "</Bytes>".

(** The envelope as the specification words it, on bytes:
    [concat(b"<Bytes>", message, b"</Bytes>")].  The source wraps the string
    ([wrapped_message]) and encodes afterwards. *)
Definition wrap (m : bytes) : bytes := open_tag ++ m ++ close_tag.

(** ** Records of foreign calls *)

(** The record of the call [verify] makes on the encoded arguments [a], [s]
    and the encoded wrapped message [w]. *)
Definition verify_call (l : CDLL.t) (a s w : bytes) : ffi_call :=
  {| symbol := "verify_polkadot_signature";
     c_args := [c_char_p a; c_char_p s; c_char_p w];
     c_result := CUInt8 (CDLL.verify_polkadot_signature l (c_char_p a) (c_char_p s) (c_char_p w)) |}.

Definition native_result (l : CDLL.t) (a s w : bytes) : byte :=
  CDLL.verify_polkadot_signature l (c_char_p a) (c_char_p s) (c_char_p w).

(** ** Sample libraries *)

(** A library that accepts every signature and one that answers [2] to
    every call. *)
Definition accept_all : CDLL.t :=
  {| CDLL.verify_polkadot_signature := fun _ _ _ => x01;
     CDLL.get_version := fun _ => Some (py_bytes "0.1.0") |}.

Definition answer_two : CDLL.t :=
  {| CDLL.verify_polkadot_signature := fun _ _ _ => x02;
     CDLL.get_version := fun _ => Some (py_bytes "0.1.0") |}.

Definition sample_globals : Globals := module_init "/opt/verifier" (fun _ => accept_all).
Definition two_globals : Globals := module_init "/opt/verifier" (fun _ => answer_two).

(** ** Sessions *)

(** A caller's request to the module, and what it gets back: the outcome,
    exceptions included, and the foreign calls made for it. *)
Inductive request :=
| VerifyRequest (address signature message : str)
| VersionRequest.

Inductive response :=
| VerifyResponse (o : outcome bool) (calls : list ffi_call)
| VersionResponse (o : outcome str) (calls : list ffi_call).

Definition serve (g : Globals) (r : request) : response * Globals :=
  match r with
  | VerifyRequest address signature message =>
      let run := verify address signature message g in
      (VerifyResponse (outcome_of run) (calls_of run), globals_of run)
  | VersionRequest =>
      let run := get_version g in
      (VersionResponse (outcome_of run) (calls_of run), globals_of run)
  end.

(** The requests served one after the other, each started in the globals
    the one before left. *)
Fixpoint session (requests : list request) (g : Globals) : list response * Globals :=
  match requests with
  | [] => ([], g)
  | r :: rest =>
      let '(resp, g1) := serve g r in
      let '(resps, g2) := session rest g1 in
      (resp :: resps, g2)
  end.

(** What a request gets when nothing ran before it. *)
Definition alone (g : Globals) (r : request) : response := fst (serve g r).

Definition get_version_call (p : option bytes) : ffi_call :=
  {| symbol := "get_version"; c_args := []; c_result := CCharP p |}.

(** ** ASCII *)

(** A character that can occur in a semantic version. *)
Definition semver_char (b : byte) : bool :=
  Native.is_ident_char b || Byte.eqb b "."%byte || Byte.eqb b "+"%byte.

(** The code points of a run of ASCII bytes. *)
Definition ascii_str (bs : bytes) : str := map Byte.to_N bs.

(** ** Scalar values *)

(** A code point [decode] can produce and [encode] accepts: not a surrogate,
    not above U+10FFFF.  A Python string holds nothing above U+10FFFF, so it
    is a string of scalar values when it holds no surrogate. *)
Definition scalar (c : codepoint) : bool := negb (is_surrogate c) && (c <? 0x110000).
Definition valid_str (s : str) : bool := forallb scalar s.

(** The index of the first surrogate of a string. *)
Fixpoint first_surrogate (s : str) : option nat :=
  match s with
  | [] => None
  | c :: s' => if is_surrogate c then Some 0%nat else option_map S (first_surrogate s')
  end.

(** Text of non-null ASCII characters, as addresses and hexadecimal
    signatures are. *)
Definition ascii_text (s : str) : bool := forallb (fun c => (0 <? c) && (c <? 0x80)) s.

(** A library whose version buffer holds a null byte. *)
Definition padded_version : CDLL.t :=
  {| CDLL.verify_polkadot_signature := fun _ _ _ => x00;
     CDLL.get_version := fun _ => Some (py_bytes "0.1.0" ++ x00 :: py_bytes "rc") |}.

Definition padded_globals : Globals := module_init "/opt/verifier" (fun _ => padded_version).

(** * Computations *)

Example encode_hello :
  encode (py_str "hello") = Return (py_bytes "hello").
Proof. reflexivity. Qed.

Example encode_euro :
  encode [0x20AC] = Return [xe2; x82; xac].
Proof. reflexivity. Qed.

Example encode_emoji :
  encode [0x1F600] = Return [xf0; x9f; x98; x80].
Proof. reflexivity. Qed.

Example encode_surrogate :
  encode [0x61; 0xD800] = Raise (UnicodeEncodeError [0x61; 0xD800] 1).
Proof. reflexivity. Qed.

Example decode_version : decode (py_bytes "0.1.0") = Return (py_str "0.1.0").
Proof. reflexivity. Qed.

Example decode_euro_emoji :
  decode [xe2; x82; xac; xf0; x9f; x98; x80] = Return [0x20AC; 0x1F600].
Proof. reflexivity. Qed.

Example codec_boundaries :
  let s := [0x00; 0x7F; 0x80; 0x7FF; 0x800; 0xD7FF; 0xE000; 0xFFFF; 0x10000; 0x10FFFF] in
  match encode s with
  | Return b => decode b = Return s
  | Raise _ => False
  end.
Proof. reflexivity. Qed.

Example decode_overlong : decode [xc0; x80] = Raise (UnicodeDecodeError [xc0; x80] 0).
Proof. reflexivity. Qed.

Example decode_encoded_surrogate :
  decode [x61; xed; xa0; x80] = Raise (UnicodeDecodeError [x61; xed; xa0; x80] 1).
Proof. reflexivity. Qed.

Example semver_plain : Native.is_semver (py_bytes "0.1.0") = true.
Proof. reflexivity. Qed.

Example semver_full : Native.is_semver (py_bytes "1.0.0-alpha.1+build-7.e4") = true.
Proof. reflexivity. Qed.

Example semver_leading_zero : Native.is_semver (py_bytes "1.02.3") = false.
Proof. reflexivity. Qed.

Example semver_two_fields : Native.is_semver (py_bytes "1.2") = false.
Proof. reflexivity. Qed.

Example semver_empty_prerelease : Native.is_semver (py_bytes "1.2.3-") = false.
Proof. reflexivity. Qed.

(** * Properties *)

(** ** Bytes *)

Lemma byte_of_N_zero (n : N) : byte_of_N n = x00 -> n mod 256 = 0.
Proof.
  unfold byte_of_N.
  destruct (Byte.of_N (n mod 256)) as [b|] eqn:E.
  - intros ->. apply Byte.to_of_N in E. symmetry. exact E.
  - apply Byte.of_N_None_iff in E.
    pose proof (N.mod_lt n 256). lia.
Qed.

Lemma byte_of_N_high_bit (k x : N) :
  N.testbit k 7 = true -> byte_of_N (N.lor k x) <> x00.
Proof.
  intros Hk H. apply byte_of_N_zero in H.
  apply (f_equal (fun n => N.testbit n 7)) in H.
  change 256 with (2 ^ 8) in H.
  rewrite N.mod_pow2_bits_low, N.lor_spec, Hk in H by lia.
  discriminate.
Qed.

Lemma byte_of_N_small (n : N) : n < 256 -> n <> 0 -> byte_of_N n <> x00.
Proof.
  intros Hlt Hn H. apply byte_of_N_zero in H.
  rewrite N.mod_small in H by exact Hlt. contradiction.
Qed.

Lemma to_N_inj (a b : byte) : Byte.to_N a = Byte.to_N b -> a = b.
Proof.
  intro H. pose proof (Byte.of_to_N a) as Ha. rewrite H, Byte.of_to_N in Ha.
  congruence.
Qed.

Lemma c_uint8_is_one (r : byte) : (c_uint8 r =? 1)%Z = Byte.eqb r x01.
Proof.
  unfold c_uint8.
  destruct (Byte.eqb r x01) eqn:E.
  - apply Byte.byte_dec_bl in E. subst r. reflexivity.
  - apply Z.eqb_neq. intro H. apply Byte.eqb_false in E. apply E.
    apply to_N_inj. simpl. lia.
Qed.

(** ** The UTF-8 encoder *)

Lemma encodable_app (s t : str) :
  encodable (s ++ t) = encodable s && encodable t.
Proof. apply forallb_app. Qed.

Lemma utf8_encode_from_encodable (object : str) (s : str) :
  encodable s = true ->
  forall pos, utf8_encode_from object pos s = Return (utf8_bytes s).
Proof.
  induction s as [|c s IH]; simpl; intros H pos.
  - reflexivity.
  - apply andb_true_iff in H as [Hc Hs].
    apply negb_true_iff in Hc. rewrite Hc, (IH Hs). reflexivity.
Qed.

Lemma utf8_encode_from_refused (object : str) (s : str) :
  encodable s = false ->
  forall pos, exists start, utf8_encode_from object pos s = Raise (UnicodeEncodeError object start).
Proof.
  induction s as [|c s IH]; simpl; intros H pos.
  - discriminate.
  - destruct (is_surrogate c) eqn:Hc.
    + exists pos. reflexivity.
    + simpl in H. destruct (IH H (S pos)) as [start ->].
      exists start. reflexivity.
Qed.

Lemma encode_encodable (s : str) :
  encodable s = true -> encode s = Return (utf8_bytes s).
Proof. intro H. apply utf8_encode_from_encodable. exact H. Qed.

Lemma encode_refused (s : str) :
  encodable s = false -> exists start, encode s = Raise (UnicodeEncodeError s start).
Proof. intro H. apply utf8_encode_from_refused. exact H. Qed.

Lemma encode_Return_inv (s : str) (b : bytes) :
  encode s = Return b -> encodable s = true /\ b = utf8_bytes s.
Proof.
  intro H. destruct (encodable s) eqn:E.
  - rewrite (encode_encodable s E) in H. split; congruence.
  - destruct (encode_refused s E) as [start H']. congruence.
Qed.

Lemma utf8_bytes_app (s t : str) : utf8_bytes (s ++ t) = utf8_bytes s ++ utf8_bytes t.
Proof. apply flat_map_app. Qed.

(** Only the code point zero encodes to a null byte. *)
Lemma utf8_char_no_null (c : codepoint) : c <> 0 -> ~ In x00 (utf8_char c).
Proof.
  intros Hc. unfold utf8_char.
  destruct (c <? 0x80) eqn:H1.
  - apply N.ltb_lt in H1. simpl. intros [H|[]].
    revert H. apply byte_of_N_small; lia.
  - assert (Hb : forall k x l, N.testbit k 7 = true -> ~ In x00 l ->
                   ~ In x00 (byte_of_N (N.lor k x) :: l)).
    { intros k x l Hk Hl [H|H]; [|exact (Hl H)].
      revert H. apply byte_of_N_high_bit. exact Hk. }
    destruct (c <? 0x800); [|destruct (c <? 0x10000)];
      repeat (apply Hb; [reflexivity|]); intros [].
Qed.

Lemma utf8_bytes_no_null (s : str) : ~ In 0 s -> ~ In x00 (utf8_bytes s).
Proof.
  induction s as [|c s IH]; simpl; intros Hs H.
  - exact H.
  - apply in_app_or in H as [H|H].
    + revert H. apply utf8_char_no_null. intro Hc. apply Hs. left. exact Hc.
    + apply IH; [|exact H]. intro Hin. apply Hs. right. exact Hin.
Qed.

Example utf8_char_null : utf8_char 0 = [x00].
Proof. reflexivity. Qed.

(** ** C strings *)

Lemma c_string_no_null (b : bytes) : ~ In x00 b -> c_string b = b.
Proof.
  induction b as [|x b IH]; simpl; intro H.
  - reflexivity.
  - destruct (Byte.eqb x x00) eqn:E.
    + apply Byte.byte_dec_bl in E. exfalso. apply H. left. exact E.
    + f_equal. apply IH. intro Hin. apply H. right. exact Hin.
Qed.

Lemma c_string_app (pre rest : bytes) :
  ~ In x00 pre -> c_string (pre ++ rest) = pre ++ c_string rest.
Proof.
  induction pre as [|x pre IH]; simpl; intro H.
  - reflexivity.
  - destruct (Byte.eqb x x00) eqn:E.
    + apply Byte.byte_dec_bl in E. exfalso. apply H. left. exact E.
    + f_equal. apply IH. intro Hin. apply H. right. exact Hin.
Qed.

Lemma c_string_truncates (pre post : bytes) :
  ~ In x00 pre -> c_string (pre ++ x00 :: post) = pre.
Proof.
  intro H. rewrite c_string_app by exact H. simpl. apply app_nil_r.
Qed.

Lemma c_string_out (b : bytes) : ~ In x00 (c_string b).
Proof.
  induction b as [|x b IH]; simpl.
  - intros [].
  - destruct (Byte.eqb x x00) eqn:E.
    + intros [].
    + intros [H|H]; [|exact (IH H)].
      subst x. discriminate.
Qed.

(** ** The envelope *)

Lemma wrapped_message_concat (message : str) :
  wrapped_message message = py_str "<Bytes>" ++ message ++ py_str "</Bytes>".
Proof.
  unfold wrapped_message, fstring. cbn [map List.concat].
  rewrite app_nil_r. reflexivity.
Qed.

Lemma encodable_wrapped (message : str) :
  encodable (wrapped_message message) = encodable message.
Proof.
  rewrite wrapped_message_concat, !encodable_app.
  change (encodable (py_str "<Bytes>")) with true.
  change (encodable (py_str "</Bytes>")) with true.
  rewrite andb_true_r. reflexivity.
Qed.

Lemma utf8_bytes_wrapped (message : str) :
  utf8_bytes (wrapped_message message) = wrap (utf8_bytes message).
Proof.
  rewrite wrapped_message_concat, !utf8_bytes_app. reflexivity.
Qed.

Lemma tags_no_null : ~ In x00 open_tag /\ ~ In x00 close_tag.
Proof.
  split; intro H; simpl in H;
    repeat (destruct H as [H|H]; [discriminate H|]); exact H.
Qed.

Lemma c_string_wrap_no_null (m : bytes) : ~ In x00 m -> c_string (wrap m) = wrap m.
Proof.
  intro H. apply c_string_no_null. unfold wrap. intro Hin.
  destruct tags_no_null as [Ho Hc].
  apply in_app_or in Hin as [Hin|Hin]; [exact (Ho Hin)|].
  apply in_app_or in Hin as [Hin|Hin]; [exact (H Hin)|exact (Hc Hin)].
Qed.

Lemma c_string_wrap_truncates (pre post : bytes) :
  ~ In x00 pre -> c_string (wrap (pre ++ x00 :: post)) = open_tag ++ pre.
Proof.
  intro H. unfold wrap.
  rewrite c_string_app by apply tags_no_null.
  rewrite <- app_assoc. rewrite c_string_app by exact H.
  simpl. rewrite app_nil_r. reflexivity.
Qed.

(** ** Runs of [verify] *)

Lemma verify_run_encodable (g : Globals) (address signature message : str) :
  encodable address = true -> encodable signature = true -> encodable message = true ->
  let a := utf8_bytes address in
  let s := utf8_bytes signature in
  let w := wrap (utf8_bytes message) in
  verify address signature message g
  = (Return (Byte.eqb (native_result (lib g) a s w) x01), g, [verify_call (lib g) a s w]).
Proof.
  intros Ha Hs Hm a s w.
  unfold verify, bind, global_lib, lift.
  rewrite (encode_encodable _ Ha), (encode_encodable _ Hs).
  rewrite encode_encodable by (rewrite encodable_wrapped; exact Hm).
  rewrite utf8_bytes_wrapped.
  unfold call_verify_polkadot_signature, bind, foreign, ret. cbn.
  rewrite c_uint8_is_one. reflexivity.
Qed.

Lemma verify_run_refused (g : Globals) (address signature message : str) :
  encodable address && encodable signature && encodable message = false ->
  exists object start,
    verify address signature message g = (Raise (UnicodeEncodeError object start), g, []).
Proof.
  intro H. unfold verify, bind, global_lib, lift.
  destruct (encodable address) eqn:Ha.
  - rewrite (encode_encodable _ Ha).
    destruct (encodable signature) eqn:Hs.
    + rewrite (encode_encodable _ Hs).
      simpl in H. rewrite <- encodable_wrapped in H.
      destruct (encode_refused _ H) as [start ->].
      eexists; eexists; reflexivity.
    + destruct (encode_refused _ Hs) as [start ->].
      eexists; eexists; reflexivity.
  - destruct (encode_refused _ Ha) as [start ->].
    eexists; eexists; reflexivity.
Qed.

(** Whatever the outcome, [verify] hands back the globals it was given. *)
Lemma verify_globals (g : Globals) (address signature message : str) :
  globals_of (verify address signature message g) = g.
Proof.
  destruct (encodable address && encodable signature && encodable message) eqn:E.
  - apply andb_true_iff in E as [E Hm]. apply andb_true_iff in E as [Ha Hs].
    rewrite (verify_run_encodable g _ _ _ Ha Hs Hm). reflexivity.
  - destruct (verify_run_refused g _ _ _ E) as (object & start & ->). reflexivity.
Qed.

(** A run that made a foreign call had three encodable arguments. *)
Lemma verify_calls_inv (g : Globals) (address signature message : str) :
  calls_of (verify address signature message g) <> [] ->
  encodable address = true /\ encodable signature = true /\ encodable message = true.
Proof.
  intro H.
  destruct (encodable address && encodable signature && encodable message) eqn:E.
  - apply andb_true_iff in E as [E Hm]. apply andb_true_iff in E as [Ha Hs]. auto.
  - destruct (verify_run_refused g _ _ _ E) as (object & start & Hr).
    rewrite Hr in H. exfalso. apply H. reflexivity.
Qed.

Lemma verify_return_inv (g : Globals) (address signature message : str) (b : bool) :
  outcome_of (verify address signature message g) = Return b ->
  encodable address = true /\ encodable signature = true /\ encodable message = true.
Proof.
  intro H.
  destruct (encodable address && encodable signature && encodable message) eqn:E.
  - apply andb_true_iff in E as [E Hm]. apply andb_true_iff in E as [Ha Hs]. auto.
  - destruct (verify_run_refused g _ _ _ E) as (object & start & Hr).
    rewrite Hr in H. discriminate H.
Qed.

(** ** A sample run *)

Example verify_sample_run :
  verify (py_str "5Grw") (py_str "0xab") (py_str "hello") sample_globals
  = (Return true, sample_globals,
     [{| symbol := "verify_polkadot_signature";
         c_args := [py_bytes "5Grw"; py_bytes "0xab"; py_bytes "<Bytes>hello</Bytes>"];
         c_result := CUInt8 x01 |}]).
Proof. reflexivity. Qed.

(** ** Sessions *)

Example session_sample :
  session [VerifyRequest (py_str "a") (py_str "b") (py_str "c");
           VerifyRequest [0xD800] [] [];
           VersionRequest;
           VerifyRequest [] [] []]
          sample_globals
  = ([VerifyResponse (Return true)
        [verify_call accept_all (py_bytes "a") (py_bytes "b") (wrap (py_bytes "c"))];
      VerifyResponse (Raise (UnicodeEncodeError [0xD800] 0)) [];
      VersionResponse (Return (py_str "0.1.0")) [get_version_call (Some (py_bytes "0.1.0"))];
      VerifyResponse (Return true) [verify_call accept_all [] [] (wrap [])]],
     sample_globals).
Proof. reflexivity. Qed.

Lemma get_version_globals (g : Globals) : globals_of (get_version g) = g.
Proof.
  unfold get_version, bind, global_lib, call_get_version, bind, foreign, ret, globals_of.
  cbn. destruct (CDLL.get_version (lib g) tt) as [p|]; cbn.
  - unfold lift. destruct (decode (c_string p)); reflexivity.
  - reflexivity.
Qed.

Lemma serve_globals (g : Globals) (r : request) : snd (serve g r) = g.
Proof.
  destruct r; cbn [serve snd].
  - apply verify_globals.
  - apply get_version_globals.
Qed.

Lemma session_alone (g : Globals) (requests : list request) :
  session requests g = (map (alone g) requests, g).
Proof.
  induction requests as [|r rest IH].
  - reflexivity.
  - cbn [session map]. unfold alone at 1.
    pose proof (serve_globals g r) as Hg.
    destruct (serve g r) as [resp g1]. cbn [snd] in Hg. subst g1.
    rewrite IH. reflexivity.
Qed.

(** ** Semantic versions are plain ASCII *)

Lemma forallb_impl {A} (P Q : A -> bool) (l : list A) :
  (forall x, P x = true -> Q x = true) -> forallb P l = true -> forallb Q l = true.
Proof.
  intros HPQ H. apply forallb_forall. intros x Hx.
  apply HPQ. revert x Hx. apply forallb_forall. exact H.
Qed.

Lemma cut_at_spec (sep : byte) (v : bytes) :
  match Native.cut_at sep v with
  | (before, Some after) => v = before ++ sep :: after
  | (before, None) => v = before
  end.
Proof.
  induction v as [|b v IH]; simpl.
  - reflexivity.
  - destruct (Byte.eqb b sep) eqn:E.
    + apply Byte.byte_dec_bl in E. subst b. reflexivity.
    + destruct (Native.cut_at sep v) as [before [after|]]; subst v; reflexivity.
Qed.

Lemma split_on_forallb (P : byte -> bool) (sep : byte) (v : bytes) :
  forallb (forallb P) (Native.split_on sep v) = true ->
  forallb (fun b => P b || Byte.eqb b sep) v = true.
Proof.
  induction v as [|b v IH]; simpl; intro H.
  - reflexivity.
  - destruct (Byte.eqb b sep) eqn:E.
    + rewrite orb_true_r. simpl in H |- *. apply IH. exact H.
    + rewrite orb_false_r.
      destruct (Native.split_on sep v) as [|field fields].
      * simpl in H. rewrite !andb_true_r in H. rewrite H. simpl. apply IH. reflexivity.
      * simpl in H. apply andb_true_iff in H as [H Hfields].
        apply andb_true_iff in H as [Hb Hfield].
        rewrite Hb. simpl. apply IH. simpl. rewrite Hfield, Hfields. reflexivity.
Qed.

Lemma numeric_identifier_digits (bs : bytes) :
  Native.numeric_identifier bs = true -> forallb Native.is_digit bs = true.
Proof.
  destruct bs as [|b [|b' bs]]; simpl; intro H.
  - discriminate.
  - rewrite H. reflexivity.
  - apply andb_true_iff in H as [_ H]. exact H.
Qed.

Lemma build_identifier_chars (bs : bytes) :
  Native.build_identifier bs = true -> forallb Native.is_ident_char bs = true.
Proof. destruct bs; simpl; [discriminate|auto]. Qed.

Lemma digit_is_ident_char (b : byte) :
  Native.is_digit b = true -> Native.is_ident_char b = true.
Proof. unfold Native.is_ident_char. intros ->. reflexivity. Qed.

Lemma is_semver_chars (v : bytes) :
  Native.is_semver v = true -> forallb semver_char v = true.
Proof.
  unfold Native.is_semver. intro H.
  pose proof (cut_at_spec "+"%byte v) as Hv.
  destruct (Native.cut_at "+"%byte v) as [front build].
  pose proof (cut_at_spec "-"%byte front) as Hfront.
  destruct (Native.cut_at "-"%byte front) as [core pre].
  apply andb_true_iff in H as [H Hbuild]. apply andb_true_iff in H as [Hcore Hpre].
  assert (Ccore : forallb semver_char core = true).
  { apply (forallb_impl (fun b => Native.is_digit b || Byte.eqb b "."%byte)).
    - intros b Hb. unfold semver_char. apply orb_true_iff in Hb as [Hb| ->].
      + rewrite (digit_is_ident_char b Hb). reflexivity.
      + rewrite orb_true_r. reflexivity.
    - apply split_on_forallb.
      destruct (Native.split_on "."%byte core) as [|major [|minor [|patch [|]]]];
        try discriminate.
      apply andb_true_iff in Hcore as [Hcore Hpatch].
      apply andb_true_iff in Hcore as [Hmajor Hminor].
      simpl. rewrite !numeric_identifier_digits by assumption. reflexivity. }
  assert (Cfields : forall p, forallb Native.build_identifier (Native.split_on "."%byte p) = true ->
                              forallb semver_char p = true).
  { intros p Hp.
    apply (forallb_impl (fun b => Native.is_ident_char b || Byte.eqb b "."%byte)).
    - intros b Hb. unfold semver_char. rewrite Hb. reflexivity.
    - apply split_on_forallb.
      revert Hp. apply forallb_impl. exact build_identifier_chars. }
  assert (Cfront : forallb semver_char front = true).
  { destruct pre as [p|]; subst front; [|exact Ccore].
    rewrite forallb_app. rewrite Ccore. simpl. apply Cfields.
    revert Hpre. apply forallb_impl. intros f Hf.
    unfold Native.prerelease_identifier in Hf.
    apply andb_true_iff in Hf as [Hf _]. exact Hf. }
  destruct build as [b|]; subst v; [|exact Cfront].
  rewrite forallb_app. rewrite Cfront. simpl. apply Cfields. exact Hbuild.
Qed.

Lemma semver_char_ascii (b : byte) :
  semver_char b = true -> Byte.to_N b < 0x80 /\ b <> x00.
Proof.
  destruct b; intro H; try discriminate H; split; (reflexivity || discriminate).
Qed.

Lemma byte_of_to_N (b : byte) : byte_of_N (Byte.to_N b) = b.
Proof.
  unfold byte_of_N. rewrite N.mod_small.
  - rewrite Byte.of_to_N. reflexivity.
  - pose proof (Byte.to_N_bounded b). lia.
Qed.

Lemma utf8_decode_from_ascii (object bs : bytes) :
  forallb (fun b => Byte.to_N b <? 0x80) bs = true ->
  forall pos, utf8_decode_from object pos bs = Return (ascii_str bs).
Proof.
  induction bs as [|b bs IH]; intros H pos.
  - reflexivity.
  - simpl in H. apply andb_true_iff in H as [Hb Hbs].
    cbn [utf8_decode_from]. cbv zeta. rewrite Hb, (IH Hbs). reflexivity.
Qed.

Lemma encode_ascii (bs : bytes) :
  forallb (fun b => Byte.to_N b <? 0x80) bs = true ->
  encode (ascii_str bs) = Return bs.
Proof.
  intro H.
  assert (He : encodable (ascii_str bs) = true /\ utf8_bytes (ascii_str bs) = bs).
  { induction bs as [|b bs IH]; [split; reflexivity|].
    simpl in H. apply andb_true_iff in H as [Hb Hbs].
    destruct (IH Hbs) as [IHe IHu].
    pose proof Hb as Hlt. apply N.ltb_lt in Hlt.
    split.
    - cbn [ascii_str map encodable forallb]. fold (ascii_str bs). fold (encodable (ascii_str bs)).
      rewrite IHe, andb_true_r. unfold is_surrogate.
      replace (0xD800 <=? Byte.to_N b) with false by (symmetry; apply N.leb_gt; lia).
      reflexivity.
    - cbn [ascii_str map utf8_bytes flat_map]. fold (ascii_str bs). fold (utf8_bytes (ascii_str bs)).
      rewrite IHu. unfold utf8_char. rewrite Hb, byte_of_to_N. reflexivity. }
  destruct He as [He Hu]. rewrite (encode_encodable _ He), Hu. reflexivity.
Qed.

Lemma semver_ascii (v : bytes) :
  Native.is_semver v = true ->
  forallb (fun b => Byte.to_N b <? 0x80) v = true /\ ~ In x00 v.
Proof.
  intro H. apply is_semver_chars in H. split.
  - revert H. apply forallb_impl. intros b Hb.
    apply N.ltb_lt. apply (semver_char_ascii b Hb).
  - intro Hin. rewrite forallb_forall in H. specialize (H _ Hin). discriminate H.
Qed.

(** * The claims *)

(** ** C1: which inputs make [verify] return *)

(** C1, as stated, fails: an address holding the lone surrogate U+D800 makes
    [address.encode()] raise [UnicodeEncodeError], and [verify] lets the
    exception out before the library is called. *)
Lemma verify_raises_on_surrogate :
  verify [0xD800] [] [] sample_globals
  = (Raise (UnicodeEncodeError [0xD800] 0), sample_globals, []).
Proof. reflexivity. Qed.

(** C1 (amended): for every triple of strings that hold no surrogate code
    point (U+D800 to U+DFFF), and so also for empty strings, strings of any
    length and strings that are not base58 or hexadecimal, [verify] returns a
    boolean and raises nothing. *)
Theorem verify_returns_bool (g : Globals) (address signature message : str) :
  encodable address = true ->
  encodable signature = true ->
  encodable message = true ->
  exists b : bool, outcome_of (verify address signature message g) = Return b.
Proof.
  intros Ha Hs Hm.
  rewrite (verify_run_encodable g _ _ _ Ha Hs Hm).
  eexists. reflexivity.
Qed.

Lemma verify_returns_bool_witness :
  exists b : bool, outcome_of (verify [] (py_str "zz") [0x0; 0x10FFFF] sample_globals) = Return b.
Proof.
  apply (verify_returns_bool sample_globals [] (py_str "zz") [0x0; 0x10FFFF]); reflexivity.
Defined.

(** ** C2: the message the native verifier receives *)

(** C2, as stated, fails: for a message holding the null character the
    native function is handed [<Bytes>] alone, not the message in its
    envelope. *)
Lemma verify_null_message_not_wrapped :
  encode [0] = Return [x00]
  /\ calls_of (verify [] [] [0] sample_globals)
     = [{| symbol := "verify_polkadot_signature";
           c_args := [[]; []; py_bytes "<Bytes>"];
           c_result := CUInt8 x01 |}]
  /\ py_bytes "<Bytes>" <> wrap [x00].
Proof.
  split; [reflexivity|]. split; [reflexivity|]. discriminate.
Qed.

(** C2 (amended): for every call of [verify] whose message holds no null
    character, the native function is called at most once, and a call it
    gets carries as its message [<Bytes>] + the encoded message +
    [</Bytes>]: the envelope is put on exactly once, the message goes
    neither bare nor wrapped twice. *)
Theorem verify_wraps_once (g : Globals) (address signature message : str)
    (c : ffi_call) :
  In c (calls_of (verify address signature message g)) ->
  ~ In 0 message ->
  exists m a s : bytes,
    encode message = Return m
    /\ calls_of (verify address signature message g) = [c]
    /\ symbol c = "verify_polkadot_signature"%string
    /\ c_args c = [a; s; open_tag ++ m ++ close_tag].
Proof.
  intros Hc Hnull.
  assert (Hcalls : calls_of (verify address signature message g) <> [])
    by (intro E; rewrite E in Hc; exact Hc).
  destruct (verify_calls_inv g _ _ _ Hcalls) as (Ha & Hs & Hm).
  rewrite (verify_run_encodable g _ _ _ Ha Hs Hm) in Hc |- *.
  unfold calls_of in Hc |- *; cbn [snd] in Hc |- *.
  destruct Hc as [<-|[]].
  exists (utf8_bytes message), (c_char_p (utf8_bytes address)),
    (c_char_p (utf8_bytes signature)).
  split; [apply encode_encodable; exact Hm|].
  split; [reflexivity|]. split; [reflexivity|].
  cbn [c_args verify_call]. unfold c_char_p.
  rewrite (c_string_wrap_no_null (utf8_bytes message))
    by (apply utf8_bytes_no_null; exact Hnull).
  reflexivity.
Qed.

Lemma verify_wraps_once_witness :
  exists m a s : bytes,
    encode (py_str "hello") = Return m
    /\ calls_of (verify (py_str "5Grw") (py_str "0xab") (py_str "hello") sample_globals)
       = [verify_call accept_all (py_bytes "5Grw") (py_bytes "0xab")
                      (py_bytes "<Bytes>hello</Bytes>")]
    /\ symbol (verify_call accept_all (py_bytes "5Grw") (py_bytes "0xab")
                           (py_bytes "<Bytes>hello</Bytes>"))
       = "verify_polkadot_signature"%string
    /\ c_args (verify_call accept_all (py_bytes "5Grw") (py_bytes "0xab")
                           (py_bytes "<Bytes>hello</Bytes>"))
       = [a; s; open_tag ++ m ++ close_tag].
Proof.
  apply (verify_wraps_once sample_globals (py_str "5Grw") (py_str "0xab") (py_str "hello")).
  - left. reflexivity.
  - simpl. intros H. repeat (destruct H as [H|H]; [discriminate H|]). exact H.
Defined.

(** ** C3: the native result and the boolean *)

Section NativeResult.

Variable decode_ss58 : bytes -> Native.Error + (Native.PublicKey * Native.NetworkPrefix).
Variable decode_signature : bytes -> Native.Error + Native.Signature64.
Variable sr25519_verify :
  Native.PublicKey -> Native.Signature64 -> bytes -> Native.Error + bool.
Variable VERSION : bytes.

Let native := Native.verify_polkadot_signature decode_ss58 decode_signature sr25519_verify.
Let valid := Native.valid decode_ss58 decode_signature sr25519_verify.
Let library := Native.library decode_ss58 decode_signature sr25519_verify VERSION.

Lemma native_one_or_zero (a s m : bytes) :
  native a s m = if valid a s m then x01 else x00.
Proof.
  unfold native, valid, Native.verify_polkadot_signature, Native.valid.
  destruct (Native.verify_signature _ _ _ a s m) as [e|[|]]; reflexivity.
Qed.

(** C3: the native [verify_polkadot_signature] returns [1] when the
    pipeline accepts the signature and [0] when it rejects it or any stage
    fails; and whenever [verify] returns, it made one native call and its
    boolean is [True] exactly when the result of that call is [1], [False]
    exactly when it is [0]. *)
Theorem verify_true_iff_native_one (path : string) (address signature message : str) :
  let g := {| lib_path := path; lib := library |} in
  let run := verify address signature message g in
  (forall a s m,
      (valid a s m = true -> native a s m = x01)
      /\ (valid a s m = false -> native a s m = x00))
  /\ (forall b, outcome_of run = Return b ->
        exists a s m,
          calls_of run = [{| symbol := "verify_polkadot_signature";
                             c_args := [a; s; m];
                             c_result := CUInt8 (native a s m) |}]
          /\ (b = true <-> native a s m = x01)
          /\ (b = false <-> native a s m = x00)).
Proof.
  intros g run. split.
  - intros a s m. rewrite native_one_or_zero.
    split; intros ->; reflexivity.
  - intros b Hb. subst run.
    destruct (verify_return_inv g _ _ _ b Hb) as (Ha & Hs & Hm).
    rewrite (verify_run_encodable g _ _ _ Ha Hs Hm) in Hb |- *.
    unfold outcome_of in Hb; cbn [fst] in Hb.
    assert (Eb : b = Byte.eqb (native_result (lib g) (utf8_bytes address)
                            (utf8_bytes signature) (wrap (utf8_bytes message))) x01)
      by congruence.
    clear Hb. subst b.
    eexists; eexists; eexists. split; [reflexivity|].
    unfold native_result. cbn [lib g].
    change (CDLL.verify_polkadot_signature library) with native.
    rewrite native_one_or_zero.
    destruct (valid _ _ _); split; split; (reflexivity || discriminate).
Qed.

End NativeResult.

(** ** C4: the envelope as a function *)

(** C4: [wrapped_message] is defined on every message and is the
    concatenation of [<Bytes>], the message and [</Bytes>]; for [hello] it
    is [<Bytes>hello</Bytes>], which is also what its encoding reads. *)
Theorem wrapped_message_is_concat :
  (forall message : str,
      wrapped_message message = py_str "<Bytes>" ++ message ++ py_str "</Bytes>")
  /\ wrapped_message (py_str "hello") = py_str "<Bytes>hello</Bytes>"
  /\ encode (wrapped_message (py_str "hello")) = Return (py_bytes "<Bytes>hello</Bytes>")
  /\ wrap (py_bytes "hello") = py_bytes "<Bytes>hello</Bytes>".
Proof.
  split; [exact wrapped_message_concat|].
  repeat split; reflexivity.
Qed.

(** ** C5: determinism *)

(** C5: two calls of [verify] on the same three arguments, the second
    started in the state the first one left, have the same outcome (the same
    boolean, or the same exception) and make the same foreign call. *)
Theorem verify_deterministic (g : Globals) (address signature message : str) :
  let first := verify address signature message g in
  let second := verify address signature message (globals_of first) in
  outcome_of second = outcome_of first /\ calls_of second = calls_of first.
Proof.
  intros first second. subst second first.
  rewrite verify_globals. split; reflexivity.
Qed.

(** ** C6: embedded null bytes *)

(** C6: the native function receives each of the three encoded arguments
    cut at its first null byte; a message whose encoding is
    [pre ++ x00 :: post], with no null in [pre], reaches it as
    [<Bytes>] + [pre], without [post] and without the closing tag. *)
Theorem verify_truncates_at_null (g : Globals) (address signature message : str)
    (a s m : bytes) :
  encode address = Return a ->
  encode signature = Return s ->
  encode message = Return m ->
  (exists r,
      calls_of (verify address signature message g)
      = [{| symbol := "verify_polkadot_signature";
            c_args := [c_string a; c_string s; c_string (wrap m)];
            c_result := r |}])
  /\ (forall pre post, a = pre ++ x00 :: post -> ~ In x00 pre -> c_string a = pre)
  /\ (forall pre post, s = pre ++ x00 :: post -> ~ In x00 pre -> c_string s = pre)
  /\ (forall pre post, m = pre ++ x00 :: post -> ~ In x00 pre ->
        c_string (wrap m) = open_tag ++ pre).
Proof.
  intros Ha Hs Hm.
  apply encode_Return_inv in Ha as [Ha ->].
  apply encode_Return_inv in Hs as [Hs ->].
  apply encode_Return_inv in Hm as [Hm ->].
  split.
  - rewrite (verify_run_encodable g _ _ _ Ha Hs Hm). eexists. reflexivity.
  - repeat split; intros pre post -> Hpre.
    + apply c_string_truncates; exact Hpre.
    + apply c_string_truncates; exact Hpre.
    + apply c_string_wrap_truncates; exact Hpre.
Qed.

Lemma verify_truncates_at_null_witness :
  (exists r,
      calls_of (verify [0x35; 0; 0x47] [0; 0x61] [0x68; 0x69; 0; 0x21] sample_globals)
      = [{| symbol := "verify_polkadot_signature";
            c_args := [c_string [x35; x00; x47]; c_string [x00; x61];
                       c_string (wrap [x68; x69; x00; x21])];
            c_result := r |}])
  /\ (forall pre post, [x35; x00; x47] = pre ++ x00 :: post -> ~ In x00 pre ->
        c_string [x35; x00; x47] = pre)
  /\ (forall pre post, [x00; x61] = pre ++ x00 :: post -> ~ In x00 pre ->
        c_string [x00; x61] = pre)
  /\ (forall pre post, [x68; x69; x00; x21] = pre ++ x00 :: post -> ~ In x00 pre ->
        c_string (wrap [x68; x69; x00; x21]) = open_tag ++ pre).
Proof.
  apply (verify_truncates_at_null sample_globals
           [0x35; 0; 0x47] [0; 0x61] [0x68; 0x69; 0; 0x21]); reflexivity.
Defined.

Example truncated_message_seen :
  c_string (wrap [x68; x69; x00; x21]) = py_bytes "<Bytes>hi".
Proof. reflexivity. Qed.

(** ** C7: the version *)

Section Version.

Variable decode_ss58 : bytes -> Native.Error + (Native.PublicKey * Native.NetworkPrefix).
Variable decode_signature : bytes -> Native.Error + Native.Signature64.
Variable sr25519_verify :
  Native.PublicKey -> Native.Signature64 -> bytes -> Native.Error + bool.
Variable VERSION : bytes.
Hypothesis VERSION_semver : Native.is_semver VERSION = true.

Let library := Native.library decode_ss58 decode_signature sr25519_verify VERSION.

Lemma get_version_run (g : Globals) :
  lib g = library ->
  get_version g = (Return (ascii_str VERSION), g, [get_version_call (Some VERSION)]).
Proof.
  intro Hlib. destruct (semver_ascii VERSION VERSION_semver) as [Hascii Hnull].
  unfold get_version, bind, global_lib, call_get_version, bind, foreign, ret.
  rewrite Hlib. cbn. rewrite (c_string_no_null VERSION Hnull).
  unfold lift, decode. rewrite (utf8_decode_from_ascii VERSION VERSION Hascii).
  reflexivity.
Qed.

(** C7: [get_version] takes no argument; with the library's static
    semantic version behind it, it raises nothing and returns that version
    as a string, and in every session, whatever was asked before, every
    version request gets this same string. *)
Theorem get_version_static (path : string) :
  let g := {| lib_path := path; lib := library |} in
  let version := ascii_str VERSION in
  encode version = Return VERSION
  /\ get_version g = (Return version, g, [get_version_call (Some VERSION)])
  /\ (forall requests o calls,
        In (VersionResponse o calls) (fst (session requests g)) ->
        o = Return version).
Proof.
  intros g version.
  destruct (semver_ascii VERSION VERSION_semver) as [Hascii Hnull].
  split; [apply encode_ascii; exact Hascii|].
  split; [apply get_version_run; reflexivity|].
  intros requests o calls Hin.
  rewrite session_alone in Hin. cbn [fst] in Hin.
  apply in_map_iff in Hin as ([a s m|] & Hr & _).
  - discriminate Hr.
  - unfold alone in Hr. cbn [serve fst] in Hr.
    rewrite get_version_run in Hr by reflexivity.
    unfold outcome_of in Hr; cbn [fst] in Hr. subst version. congruence.
Qed.

End Version.

Lemma get_version_static_witness :
  let stage1 := fun _ : bytes => @inl Native.Error (Native.PublicKey * Native.NetworkPrefix)
                                     Native.InvalidEncoding in
  let stage2 := fun _ : bytes => @inl Native.Error Native.Signature64 Native.InvalidEncoding in
  let stage3 := fun (_ _ _ : bytes) => @inl Native.Error bool Native.InvalidPoint in
  let g := {| lib_path := "libpolkadot_sig_verifier.so";
              lib := Native.library stage1 stage2 stage3 (py_bytes "0.1.0") |} in
  encode (py_str "0.1.0") = Return (py_bytes "0.1.0")
  /\ get_version g = (Return (py_str "0.1.0"), g, [get_version_call (Some (py_bytes "0.1.0"))])
  /\ (forall requests o calls,
        In (VersionResponse o calls) (fst (session requests g)) ->
        o = Return (py_str "0.1.0")).
Proof.
  intros stage1 stage2 stage3 g.
  apply (get_version_static stage1 stage2 stage3 (py_bytes "0.1.0") eq_refl
           "libpolkadot_sig_verifier.so").
Defined.

(** ** C8: no state between calls *)

(** C8: a call of [verify] leaves the module's globals as it found them,
    whether it returns or raises; and in any sequence of requests every call
    has the outcome, and hands the native function the arguments, it has
    when run alone: nothing of an earlier call reaches a later one. *)
Theorem verify_stateless (g : Globals) :
  (forall address signature message,
      globals_of (verify address signature message g) = g)
  /\ (forall requests, session requests g = (map (alone g) requests, g)).
Proof.
  split.
  - intros. apply verify_globals.
  - apply session_alone.
Qed.

(** ** C9: wrapping and encoding commute *)

(** C9: for a message with no surrogate, encoding the wrapped string gives
    [<Bytes>] + the encoded message + [</Bytes>]. *)
Theorem encode_wrapped_message (message : str) :
  encodable message = true ->
  exists m : bytes,
    encode message = Return m
    /\ encode (py_str "<Bytes>" ++ message ++ py_str "</Bytes>")
       = Return (py_bytes "<Bytes>" ++ m ++ py_bytes "</Bytes>")
    /\ encode (wrapped_message message)
       = Return (py_bytes "<Bytes>" ++ m ++ py_bytes "</Bytes>").
Proof.
  intro Hm. exists (utf8_bytes message).
  split; [apply encode_encodable; exact Hm|].
  rewrite <- wrapped_message_concat.
  assert (H : encode (wrapped_message message)
              = Return (py_bytes "<Bytes>" ++ utf8_bytes message ++ py_bytes "</Bytes>")).
  { rewrite encode_encodable by (rewrite encodable_wrapped; exact Hm).
    rewrite utf8_bytes_wrapped. reflexivity. }
  split; exact H.
Qed.

Lemma encode_wrapped_message_witness :
  exists m : bytes,
    encode [0x68; 0xE9; 0x20AC; 0x1F600] = Return m
    /\ encode (py_str "<Bytes>" ++ [0x68; 0xE9; 0x20AC; 0x1F600] ++ py_str "</Bytes>")
       = Return (py_bytes "<Bytes>" ++ m ++ py_bytes "</Bytes>")
    /\ encode (wrapped_message [0x68; 0xE9; 0x20AC; 0x1F600])
       = Return (py_bytes "<Bytes>" ++ m ++ py_bytes "</Bytes>").
Proof.
  apply (encode_wrapped_message [0x68; 0xE9; 0x20AC; 0x1F600]). reflexivity.
Defined.

(** ** C10: every other native result *)

(** C10: when the foreign call [verify] makes returns a byte other than
    [1], that is [0] or one of [2] to [255], [verify] returns [False]. *)
Theorem verify_false_unless_one (g : Globals) (address signature message : str)
    (c : ffi_call) (r : byte) :
  calls_of (verify address signature message g) = [c] ->
  c_result c = CUInt8 r ->
  r <> x01 ->
  outcome_of (verify address signature message g) = Return false.
Proof.
  intros Hc Hr Hne.
  assert (Hcalls : calls_of (verify address signature message g) <> [])
    by (rewrite Hc; discriminate).
  destruct (verify_calls_inv g _ _ _ Hcalls) as (Ha & Hs & Hm).
  rewrite (verify_run_encodable g _ _ _ Ha Hs Hm) in Hc |- *.
  unfold calls_of in Hc; cbn [snd] in Hc.
  assert (Ec : c = verify_call (lib g) (utf8_bytes address) (utf8_bytes signature)
                     (wrap (utf8_bytes message))) by congruence.
  subst c. cbn [c_result verify_call] in Hr.
  assert (Er : r = native_result (lib g) (utf8_bytes address) (utf8_bytes signature)
                     (wrap (utf8_bytes message))) by (unfold native_result; congruence).
  rewrite <- Er. unfold outcome_of; cbn [fst]. f_equal.
  destruct (Byte.eqb r x01) eqn:E; [|reflexivity].
  apply Byte.byte_dec_bl in E. contradiction.
Qed.

Lemma verify_false_unless_one_witness :
  outcome_of (verify (py_str "5Grw") (py_str "0xab") (py_str "hello") two_globals)
  = Return false.
Proof.
  apply (verify_false_unless_one two_globals (py_str "5Grw") (py_str "0xab") (py_str "hello")
           (verify_call answer_two (py_bytes "5Grw") (py_bytes "0xab")
                        (py_bytes "<Bytes>hello</Bytes>"))
           x02).
  - reflexivity.
  - reflexivity.
  - discriminate.
Defined.

(** * Further properties

    Properties of [verify], of [get_version] and of the codec between them
    that the module shows beyond the claims. *)

(** ** Arithmetic of the UTF-8 layout *)

Lemma to_N_byte_of_N (n : N) : n < 256 -> Byte.to_N (byte_of_N n) = n.
Proof.
  intro H. unfold byte_of_N. rewrite N.mod_small by exact H.
  destruct (Byte.of_N n) as [b|] eqn:E.
  - apply Byte.to_of_N. exact E.
  - apply Byte.of_N_None_iff in E. lia.
Qed.

Lemma lor_shiftl_add (a b k : N) : b < 2 ^ k -> N.lor (N.shiftl a k) b = a * 2 ^ k + b.
Proof.
  intro H. rewrite <- N.lxor_lor, <- N.add_nocarry_lxor, N.shiftl_mul_pow2; try reflexivity.
  all: apply N.bits_inj_0; intro n; rewrite N.land_spec;
    destruct (N.lt_ge_cases n k) as [Hn|Hn];
    [ rewrite N.shiftl_spec_low by exact Hn; reflexivity
    | rewrite <- (N.mod_small b (2 ^ k)) by exact H;
      rewrite N.mod_pow2_bits_high by exact Hn; apply andb_false_r ].
Qed.

Lemma div_digit (k q r : N) : r < k -> (q * k + r) / k = q.
Proof.
  intro H. symmetry. apply (N.div_unique _ k q r); [exact H|lia].
Qed.

Lemma mod_digit (k q r : N) : r < k -> (q * k + r) mod k = r.
Proof.
  intro H. symmetry. apply (N.mod_unique _ k q r); [exact H|lia].
Qed.

(** The base-64 digits of a code point. *)
Lemma digits_2 (c : N) :
  exists a b, c = a * 64 + b /\ b < 64 /\ c / 64 = a /\ c mod 64 = b.
Proof.
  exists (c / 64), (c mod 64).
  pose proof (N.div_mod c 64). pose proof (N.mod_lt c 64). repeat split; lia.
Qed.

Lemma digits_3 (c : N) :
  exists a b d, c = a * 4096 + b * 64 + d /\ b < 64 /\ d < 64
                /\ c / 4096 = a /\ (c / 64) mod 64 = b /\ c mod 64 = d.
Proof.
  destruct (digits_2 c) as (q & d & Hc & Hd & Eq & Ed).
  destruct (digits_2 q) as (a & b & Hq & Hb & Ea & Eb).
  exists a, b, d. rewrite Eq, Ed, Eb. repeat split; try assumption; try lia.
  replace c with (a * 4096 + (b * 64 + d)) by lia. apply div_digit. lia.
Qed.

Lemma digits_4 (c : N) :
  exists a b d e, c = a * 262144 + b * 4096 + d * 64 + e /\ b < 64 /\ d < 64 /\ e < 64
                  /\ c / 262144 = a /\ (c / 4096) mod 64 = b
                  /\ (c / 64) mod 64 = d /\ c mod 64 = e.
Proof.
  destruct (digits_3 c) as (q & d & e & Hc & Hd & He & Eq & Ed & Ee).
  destruct (digits_2 q) as (a & b & Hq & Hb & Ea & Eb).
  exists a, b, d, e. rewrite Eq, Ed, Ee, Eb. repeat split; try assumption; try lia.
  replace c with (a * 262144 + (b * 4096 + d * 64 + e)) by lia. apply div_digit. lia.
Qed.

Lemma cont_byte (x : N) : N.lor 0x80 (N.land x 0x3F) = 0x80 + x mod 64.
Proof.
  change 0x3F with (N.ones 6). rewrite N.land_ones.
  change 0x80 with (N.shiftl 2 6). rewrite lor_shiftl_add; [reflexivity|].
  apply N.mod_lt. discriminate.
Qed.

Lemma utf8_char_1 (c : N) : c < 0x80 -> utf8_char c = [byte_of_N c].
Proof. intro H. unfold utf8_char. apply N.ltb_lt in H. rewrite H. reflexivity. Qed.

Lemma utf8_char_2 (a b : N) :
  2 <= a -> a < 32 -> b < 64 ->
  utf8_char (a * 64 + b) = [byte_of_N (0xC0 + a); byte_of_N (0x80 + b)].
Proof.
  intros Ha Ha' Hb. unfold utf8_char.
  destruct (N.ltb_spec (a * 64 + b) 0x80); [lia|].
  destruct (N.ltb_spec (a * 64 + b) 0x800); [|lia].
  rewrite cont_byte, N.shiftr_div_pow2. change (2 ^ 6) with 64.
  rewrite div_digit, mod_digit by exact Hb.
  change 0xC0 with (N.shiftl 6 5). rewrite lor_shiftl_add by exact Ha'. reflexivity.
Qed.

Lemma digits_3_inv (a b d : N) :
  b < 64 -> d < 64 ->
  let c := a * 4096 + b * 64 + d in
  c / 4096 = a /\ (c / 64) mod 64 = b /\ c mod 64 = d.
Proof.
  intros Hb Hd c. subst c. repeat split.
  - replace (a * 4096 + b * 64 + d) with (a * 4096 + (b * 64 + d)) by lia.
    apply div_digit. lia.
  - replace (a * 4096 + b * 64 + d) with ((a * 64 + b) * 64 + d) by lia.
    rewrite div_digit by exact Hd. apply mod_digit. exact Hb.
  - replace (a * 4096 + b * 64 + d) with ((a * 64 + b) * 64 + d) by lia.
    apply mod_digit. exact Hd.
Qed.

Lemma digits_4_inv (a b d e : N) :
  b < 64 -> d < 64 -> e < 64 ->
  let c := a * 262144 + b * 4096 + d * 64 + e in
  c / 262144 = a /\ (c / 4096) mod 64 = b /\ (c / 64) mod 64 = d /\ c mod 64 = e.
Proof.
  intros Hb Hd He c. subst c. repeat split.
  - replace (a * 262144 + b * 4096 + d * 64 + e)
      with (a * 262144 + (b * 4096 + d * 64 + e)) by lia.
    apply div_digit. lia.
  - replace (a * 262144 + b * 4096 + d * 64 + e)
      with ((a * 64 + b) * 4096 + (d * 64 + e)) by lia.
    rewrite div_digit by lia. apply mod_digit. exact Hb.
  - replace (a * 262144 + b * 4096 + d * 64 + e)
      with ((a * 4096 + b * 64 + d) * 64 + e) by lia.
    rewrite div_digit by exact He.
    replace (a * 4096 + b * 64 + d) with ((a * 64 + b) * 64 + d) by lia.
    apply mod_digit. exact Hd.
  - replace (a * 262144 + b * 4096 + d * 64 + e)
      with ((a * 4096 + b * 64 + d) * 64 + e) by lia.
    apply mod_digit. exact He.
Qed.

Lemma utf8_char_3 (a b d : N) :
  a < 16 -> b < 64 -> d < 64 -> 0x800 <= a * 4096 + b * 64 + d ->
  utf8_char (a * 4096 + b * 64 + d)
  = [byte_of_N (0xE0 + a); byte_of_N (0x80 + b); byte_of_N (0x80 + d)].
Proof.
  intros Ha Hb Hd Hlo.
  destruct (digits_3_inv a b d Hb Hd) as (E0 & E1 & E2).
  unfold utf8_char.
  destruct (N.ltb_spec (a * 4096 + b * 64 + d) 0x80); [lia|].
  destruct (N.ltb_spec (a * 4096 + b * 64 + d) 0x800); [lia|].
  destruct (N.ltb_spec (a * 4096 + b * 64 + d) 0x10000); [|lia].
  rewrite !cont_byte, !N.shiftr_div_pow2. change (2 ^ 6) with 64. change (2 ^ 12) with 4096.
  rewrite E0, E1, E2.
  change 0xE0 with (N.shiftl 14 4). rewrite lor_shiftl_add by exact Ha. reflexivity.
Qed.

Lemma utf8_char_4 (a b d e : N) :
  a < 8 -> b < 64 -> d < 64 -> e < 64 -> 0x10000 <= a * 262144 + b * 4096 + d * 64 + e ->
  utf8_char (a * 262144 + b * 4096 + d * 64 + e)
  = [byte_of_N (0xF0 + a); byte_of_N (0x80 + b); byte_of_N (0x80 + d); byte_of_N (0x80 + e)].
Proof.
  intros Ha Hb Hd He Hlo.
  destruct (digits_4_inv a b d e Hb Hd He) as (E0 & E1 & E2 & E3).
  unfold utf8_char.
  destruct (N.ltb_spec (a * 262144 + b * 4096 + d * 64 + e) 0x80); [lia|].
  destruct (N.ltb_spec (a * 262144 + b * 4096 + d * 64 + e) 0x800); [lia|].
  destruct (N.ltb_spec (a * 262144 + b * 4096 + d * 64 + e) 0x10000); [lia|].
  rewrite !cont_byte, !N.shiftr_div_pow2.
  change (2 ^ 6) with 64. change (2 ^ 12) with 4096. change (2 ^ 18) with 262144.
  rewrite E0, E1, E2, E3.
  change 0xF0 with (N.shiftl 30 3). rewrite lor_shiftl_add by exact Ha. reflexivity.
Qed.

Lemma low6_mod (n : N) : low6 n = n mod 64.
Proof. unfold low6. change 0x3F with (N.ones 6). apply N.land_ones. Qed.

(** What the decoder reads off a lead byte and off a continuation byte. *)
Lemma low6_cont (b : N) : b < 64 -> low6 (0x80 + b) = b.
Proof. intro H. rewrite low6_mod. apply (mod_digit 64 2 b H). Qed.

Lemma lead_2_payload (a : N) : a < 32 -> N.land (0xC0 + a) 0x1F = a.
Proof.
  intro H. change 0x1F with (N.ones 5). rewrite N.land_ones. apply (mod_digit 32 6 a H).
Qed.

Lemma lead_3_payload (a : N) : a < 16 -> N.land (0xE0 + a) 0x0F = a.
Proof.
  intro H. change 0x0F with (N.ones 4). rewrite N.land_ones. apply (mod_digit 16 14 a H).
Qed.

Lemma lead_4_payload (a : N) : a < 8 -> N.land (0xF0 + a) 0x07 = a.
Proof.
  intro H. change 0x07 with (N.ones 3). rewrite N.land_ones. apply (mod_digit 8 30 a H).
Qed.

Lemma assemble_2 (a b : N) : b < 64 -> N.lor (N.shiftl a 6) b = a * 64 + b.
Proof. apply (lor_shiftl_add a b 6). Qed.

Lemma assemble_3 (a b d : N) :
  b < 64 -> d < 64 ->
  N.lor (N.shiftl a 12) (N.lor (N.shiftl b 6) d) = a * 4096 + b * 64 + d.
Proof.
  intros Hb Hd. rewrite (assemble_2 b d Hd).
  rewrite (lor_shiftl_add a (b * 64 + d) 12); [change (2 ^ 12) with 4096; lia|].
  change (2 ^ 12) with 4096. lia.
Qed.

Lemma assemble_4 (a b d e : N) :
  b < 64 -> d < 64 -> e < 64 ->
  N.lor (N.shiftl a 18) (N.lor (N.shiftl b 12) (N.lor (N.shiftl d 6) e))
  = a * 262144 + b * 4096 + d * 64 + e.
Proof.
  intros Hb Hd He. rewrite (assemble_3 b d e Hd He).
  rewrite (lor_shiftl_add a (b * 4096 + d * 64 + e) 18);
    [change (2 ^ 18) with 262144; lia|].
  change (2 ^ 18) with 262144. lia.
Qed.

Lemma scalar_intro (c : N) :
  (c < 0xD800 \/ 0xDFFF < c) -> c < 0x110000 -> scalar c = true.
Proof.
  intros Hs Hr. unfold scalar, is_surrogate.
  apply andb_true_iff. split; [|apply N.ltb_lt; exact Hr].
  apply negb_true_iff. apply andb_false_iff.
  destruct Hs; [left|right]; apply N.leb_gt; lia.
Qed.

Lemma scalar_range (c : N) :
  scalar c = true -> (c < 0xD800 \/ 0xDFFF < c) /\ c < 0x110000.
Proof.
  unfold scalar, is_surrogate. intro H.
  apply andb_true_iff in H as [H1 H2]. apply N.ltb_lt in H2.
  apply negb_true_iff in H1. apply andb_false_iff in H1.
  split; [|exact H2]. destruct H1 as [H1|H1]; apply N.leb_gt in H1; lia.
Qed.

Ltac split_tests :=
  repeat match goal with
  | |- context [N.ltb ?a ?b] => destruct (N.ltb_spec a b); try lia
  | |- context [N.leb ?a ?b] => destruct (N.leb_spec a b); try lia
  | |- context [N.eqb ?a ?b] => destruct (N.eqb_spec a b); try lia
  end.

Section DecodeSteps.

Variable object : bytes.
Variable pos : nat.
Variable rest : bytes.

Lemma decode_step_1 (c : N) :
  c < 0x80 ->
  utf8_decode_from object pos (byte_of_N c :: rest)
  = cons_outcome c (utf8_decode_from object (1 + pos) rest).
Proof.
  intro H. cbn [utf8_decode_from]. cbv zeta.
  rewrite to_N_byte_of_N by lia. split_tests. reflexivity.
Qed.

Lemma decode_step_2 (a b : N) :
  2 <= a -> a < 32 -> b < 64 ->
  utf8_decode_from object pos (byte_of_N (0xC0 + a) :: byte_of_N (0x80 + b) :: rest)
  = cons_outcome (a * 64 + b) (utf8_decode_from object (2 + pos) rest).
Proof.
  intros Ha Ha' Hb. cbn [utf8_decode_from]. cbv zeta.
  rewrite !to_N_byte_of_N by lia.
  rewrite lead_2_payload, low6_cont, assemble_2 by assumption.
  unfold is_continuation. split_tests. reflexivity.
Qed.

Lemma decode_step_3 (a b d : N) :
  a < 16 -> b < 64 -> d < 64 ->
  (a = 0 -> 32 <= b) -> (a = 13 -> b < 32) ->
  utf8_decode_from object pos
    (byte_of_N (0xE0 + a) :: byte_of_N (0x80 + b) :: byte_of_N (0x80 + d) :: rest)
  = cons_outcome (a * 4096 + b * 64 + d) (utf8_decode_from object (3 + pos) rest).
Proof.
  intros Ha Hb Hd Hlo Hsur. cbn [utf8_decode_from]. cbv zeta.
  rewrite !to_N_byte_of_N by lia.
  rewrite lead_3_payload, !low6_cont, assemble_3 by assumption.
  unfold second_of_three, is_continuation. split_tests; reflexivity.
Qed.

Lemma decode_step_4 (a b d e : N) :
  a < 5 -> b < 64 -> d < 64 -> e < 64 ->
  (a = 0 -> 16 <= b) -> (a = 4 -> b < 16) ->
  utf8_decode_from object pos
    (byte_of_N (0xF0 + a) :: byte_of_N (0x80 + b) :: byte_of_N (0x80 + d)
       :: byte_of_N (0x80 + e) :: rest)
  = cons_outcome (a * 262144 + b * 4096 + d * 64 + e)
                 (utf8_decode_from object (4 + pos) rest).
Proof.
  intros Ha Hb Hd He Hlo Hhi. cbn [utf8_decode_from]. cbv zeta.
  rewrite !to_N_byte_of_N by lia.
  rewrite lead_4_payload, !low6_cont, assemble_4 by (assumption || lia).
  unfold second_of_four, is_continuation. split_tests; reflexivity.
Qed.

End DecodeSteps.

Lemma decode_utf8_char (object : bytes) (pos : nat) (c : N) (rest : bytes) :
  scalar c = true ->
  utf8_decode_from object pos (utf8_char c ++ rest)
  = cons_outcome c (utf8_decode_from object (List.length (utf8_char c) + pos) rest).
Proof.
  intro Hc. apply scalar_range in Hc as [Hs Hr].
  destruct (N.lt_ge_cases c 0x80) as [H1|H1];
    [|destruct (N.lt_ge_cases c 0x800) as [H2|H2];
      [|destruct (N.lt_ge_cases c 0x10000) as [H3|H3]]].
  - rewrite utf8_char_1 by exact H1. apply decode_step_1. exact H1.
  - destruct (digits_2 c) as (a & b & Ec & Hb & _). subst c.
    rewrite utf8_char_2 by lia. apply decode_step_2; lia.
  - destruct (digits_3 c) as (a & b & d & Ec & Hb & Hd & _). subst c.
    rewrite utf8_char_3 by lia. apply decode_step_3; lia.
  - destruct (digits_4 c) as (a & b & d & e & Ec & Hb & Hd & He & _). subst c.
    rewrite utf8_char_4 by lia. apply decode_step_4; lia.
Qed.

Lemma utf8_char_length (c : N) : (1 <= List.length (utf8_char c) <= 4)%nat.
Proof.
  unfold utf8_char.
  destruct (c <? 0x80); [|destruct (c <? 0x800); [|destruct (c <? 0x10000)]];
    cbn [List.length]; lia.
Qed.

Lemma decode_utf8_bytes (object : bytes) (s : str) :
  valid_str s = true ->
  forall pos, utf8_decode_from object pos (utf8_bytes s) = Return s.
Proof.
  induction s as [|c s IH]; intros H pos.
  - reflexivity.
  - cbn [valid_str forallb] in H. apply andb_true_iff in H as [Hc Hs].
    cbn [utf8_bytes flat_map]. rewrite decode_utf8_char by exact Hc.
    fold (utf8_bytes s). rewrite (IH Hs). reflexivity.
Qed.

Lemma cons_outcome_Return (c : codepoint) (o : outcome str) (s : str) :
  cons_outcome c o = Return s -> exists s', o = Return s' /\ s = c :: s'.
Proof.
  destruct o as [s'|e]; cbn; intro H; [|discriminate H].
  exists s'. split; [reflexivity|congruence].
Qed.

Lemma is_continuation_range (n : N) :
  is_continuation n = true -> 0x80 <= n /\ n <= 0xBF.
Proof.
  unfold is_continuation. intro H. apply andb_true_iff in H as [H H'].
  apply N.leb_le in H, H'. split; assumption.
Qed.

Lemma second_of_three_range (n0 n1 : N) :
  second_of_three n0 n1 = true ->
  0x80 <= n1 /\ n1 <= 0xBF /\ (n0 = 0xE0 -> 0xA0 <= n1) /\ (n0 = 0xED -> n1 <= 0x9F).
Proof.
  unfold second_of_three.
  destruct (N.eqb_spec n0 0xE0) as [E|E]; [|destruct (N.eqb_spec n0 0xED) as [E'|E']].
  - intro H. apply andb_true_iff in H as [H H']. apply N.leb_le in H, H'. lia.
  - intro H. apply andb_true_iff in H as [H H']. apply N.leb_le in H, H'. lia.
  - intro H. apply is_continuation_range in H. lia.
Qed.

Lemma second_of_four_range (n0 n1 : N) :
  second_of_four n0 n1 = true ->
  0x80 <= n1 /\ n1 <= 0xBF /\ (n0 = 0xF0 -> 0x90 <= n1) /\ (n0 = 0xF4 -> n1 <= 0x8F).
Proof.
  unfold second_of_four.
  destruct (N.eqb_spec n0 0xF0) as [E|E]; [|destruct (N.eqb_spec n0 0xF4) as [E'|E']].
  - intro H. apply andb_true_iff in H as [H H']. apply N.leb_le in H, H'. lia.
  - intro H. apply andb_true_iff in H as [H H']. apply N.leb_le in H, H'. lia.
  - intro H. apply is_continuation_range in H. lia.
Qed.

(** A byte as a tag plus a payload. *)
Lemma byte_split (b : byte) (tag : N) :
  tag <= Byte.to_N b -> exists a, Byte.to_N b = tag + a /\ b = byte_of_N (tag + a).
Proof.
  intro H. exists (Byte.to_N b - tag).
  assert (E : tag + (Byte.to_N b - tag) = Byte.to_N b) by lia.
  rewrite E, byte_of_to_N. split; reflexivity.
Qed.

(** One step of the decoder, read backwards: a string that comes out starts
    with a scalar value whose encoding is the bytes consumed. *)
Lemma decode_first (object : bytes) (pos : nat) (bs : bytes) (s : str) :
  bs <> [] ->
  utf8_decode_from object pos bs = Return s ->
  exists c s' rest k,
    s = c :: s' /\ bs = utf8_char c ++ rest /\ scalar c = true
    /\ utf8_decode_from object (k + pos) rest = Return s'.
Proof.
  destruct bs as [|b0 r0]; [intro H; contradiction H; reflexivity|intros _].
  cbn [utf8_decode_from]. cbv zeta.
  destruct (N.ltb_spec (Byte.to_N b0) 0x80) as [H1|H1].
  { intro H. apply cons_outcome_Return in H as (s' & Hs' & ->).
    exists (Byte.to_N b0), s', r0, 1%nat.
    rewrite utf8_char_1 by exact H1. rewrite byte_of_to_N.
    repeat split; [apply scalar_intro; lia|exact Hs']. }
  destruct (N.ltb_spec (Byte.to_N b0) 0xC2) as [H2|H2]; [discriminate|].
  destruct (N.ltb_spec (Byte.to_N b0) 0xE0) as [H3|H3].
  { destruct r0 as [|b1 r1]; [discriminate|].
    destruct (is_continuation (Byte.to_N b1)) eqn:C1; [|discriminate].
    apply is_continuation_range in C1.
    destruct (byte_split b0 0xC0) as (a & E0 & ->); [lia|].
    destruct (byte_split b1 0x80) as (b & E1 & ->); [lia|].
    rewrite E0, E1. rewrite lead_2_payload, low6_cont, assemble_2 by lia.
    intro H. apply cons_outcome_Return in H as (s' & Hs' & ->).
    exists (a * 64 + b), s', r1, 2%nat. rewrite utf8_char_2 by lia.
    repeat split; [apply scalar_intro; lia|exact Hs']. }
  destruct (N.ltb_spec (Byte.to_N b0) 0xF0) as [H4|H4].
  { destruct r0 as [|b1 [|b2 r2]]; try discriminate.
    destruct (second_of_three (Byte.to_N b0) (Byte.to_N b1)) eqn:C1; [|discriminate].
    destruct (is_continuation (Byte.to_N b2)) eqn:C2; [|discriminate].
    apply second_of_three_range in C1. apply is_continuation_range in C2.
    destruct (byte_split b0 0xE0) as (a & E0 & ->); [lia|].
    destruct (byte_split b1 0x80) as (b & E1 & ->); [lia|].
    destruct (byte_split b2 0x80) as (d & E2 & ->); [lia|].
    rewrite E0, E1, E2 in *. cbn [andb].
    rewrite lead_3_payload, !low6_cont, assemble_3 by lia.
    intro H. apply cons_outcome_Return in H as (s' & Hs' & ->).
    exists (a * 4096 + b * 64 + d), s', r2, 3%nat. rewrite utf8_char_3 by lia.
    repeat split; [apply scalar_intro; lia|exact Hs']. }
  destruct (N.ltb_spec (Byte.to_N b0) 0xF5) as [H5|H5]; [|discriminate].
  destruct r0 as [|b1 [|b2 [|b3 r3]]]; try discriminate.
  destruct (second_of_four (Byte.to_N b0) (Byte.to_N b1)) eqn:C1; [|discriminate].
  destruct (is_continuation (Byte.to_N b2)) eqn:C2; [|discriminate].
  destruct (is_continuation (Byte.to_N b3)) eqn:C3; [|discriminate].
  apply second_of_four_range in C1.
  apply is_continuation_range in C2. apply is_continuation_range in C3.
  destruct (byte_split b0 0xF0) as (a & E0 & ->); [lia|].
  destruct (byte_split b1 0x80) as (b & E1 & ->); [lia|].
  destruct (byte_split b2 0x80) as (d & E2 & ->); [lia|].
  destruct (byte_split b3 0x80) as (e & E3 & ->); [lia|].
  rewrite E0, E1, E2, E3 in *. cbn [andb].
  rewrite lead_4_payload, !low6_cont, assemble_4 by lia.
  intro H. apply cons_outcome_Return in H as (s' & Hs' & ->).
  exists (a * 262144 + b * 4096 + d * 64 + e), s', r3, 4%nat. rewrite utf8_char_4 by lia.
  repeat split; [apply scalar_intro; lia|exact Hs'].
Qed.

Lemma decode_sound (object : bytes) (s : str) :
  forall (bs : bytes) (pos : nat),
    utf8_decode_from object pos bs = Return s ->
    valid_str s = true /\ utf8_bytes s = bs.
Proof.
  induction s as [|c s IH]; intros bs pos H.
  - destruct bs as [|b0 r0]; [split; reflexivity|].
    destruct (decode_first object pos (b0 :: r0) [] ltac:(discriminate) H)
      as (c & s' & rest & k & E & _). discriminate E.
  - destruct bs as [|b0 r0]; [discriminate H|].
    destruct (decode_first object pos (b0 :: r0) (c :: s) ltac:(discriminate) H)
      as (c' & s' & rest & k & E & Ebs & Hc & Hrest).
    injection E as <- <-.
    destruct (IH rest (k + pos)%nat Hrest) as [Hv Hu].
    split.
    + cbn [valid_str forallb]. fold (valid_str s). rewrite Hc, Hv. reflexivity.
    + cbn [utf8_bytes flat_map]. fold (utf8_bytes s). rewrite Hu, Ebs. reflexivity.
Qed.

Lemma valid_str_encodable (s : str) : valid_str s = true -> encodable s = true.
Proof.
  unfold valid_str, encodable. apply forallb_impl.
  intros c Hc. unfold scalar in Hc. apply andb_true_iff in Hc as [Hc _]. exact Hc.
Qed.

Lemma utf8_bytes_injective (s t : str) :
  valid_str s = true -> valid_str t = true -> utf8_bytes s = utf8_bytes t -> s = t.
Proof.
  intros Hs Ht E.
  pose proof (decode_utf8_bytes [] s Hs 0%nat) as Ds.
  pose proof (decode_utf8_bytes [] t Ht 0%nat) as Dt.
  rewrite E in Ds. congruence.
Qed.

Lemma utf8_bytes_null (s : str) : In 0 s -> In x00 (utf8_bytes s).
Proof.
  induction s as [|c s IH]; intro H; [destruct H|].
  cbn [utf8_bytes flat_map]. apply in_or_app. destruct H as [H|H].
  - left. subst c. left. reflexivity.
  - right. apply IH. exact H.
Qed.

(** ** Exceptions, calls and round trips *)

Lemma utf8_encode_from_first (object : str) (s : str) (pos : nat) :
  utf8_encode_from object pos s
  = match first_surrogate s with
    | Some i => Raise (UnicodeEncodeError object (pos + i))
    | None => Return (utf8_bytes s)
    end.
Proof.
  revert pos. induction s as [|c s IH]; intro pos; cbn [utf8_encode_from first_surrogate].
  - reflexivity.
  - destruct (is_surrogate c).
    + rewrite Nat.add_0_r. reflexivity.
    + rewrite IH. destruct (first_surrogate s) as [i|]; cbn [option_map].
      * rewrite Nat.add_succ_r. reflexivity.
      * reflexivity.
Qed.

Lemma first_surrogate_app (s t : str) :
  first_surrogate (s ++ t)
  = match first_surrogate s with
    | Some i => Some i
    | None => option_map (Nat.add (List.length s)) (first_surrogate t)
    end.
Proof.
  induction s as [|c s IH]; cbn [app first_surrogate List.length].
  - destruct (first_surrogate t); reflexivity.
  - destruct (is_surrogate c); [reflexivity|].
    rewrite IH. destruct (first_surrogate s); [reflexivity|].
    destruct (first_surrogate t); reflexivity.
Qed.

Lemma first_surrogate_wrapped (message : str) :
  first_surrogate (wrapped_message message)
  = option_map (Nat.add 7) (first_surrogate message).
Proof.
  rewrite wrapped_message_concat, first_surrogate_app.
  change (first_surrogate (py_str "<Bytes>")) with (@None nat).
  rewrite first_surrogate_app.
  change (first_surrogate (py_str "</Bytes>")) with (@None nat).
  destruct (first_surrogate message); reflexivity.
Qed.

Lemma first_surrogate_None (s : str) :
  first_surrogate s = None <-> encodable s = true.
Proof.
  induction s as [|c s IH]; cbn [first_surrogate encodable forallb].
  - split; reflexivity.
  - destruct (is_surrogate c); cbn [negb andb].
    + split; discriminate.
    + fold (encodable s). rewrite <- IH.
      destruct (first_surrogate s); cbn; split; (reflexivity || discriminate).
Qed.

Lemma encodable_existsb (s : str) : encodable s = negb (existsb is_surrogate s).
Proof.
  induction s as [|c s IH]; cbn [encodable forallb existsb]; [reflexivity|].
  fold (encodable s). rewrite IH, negb_orb. reflexivity.
Qed.

(** ** X1: when [verify] raises

    X1: [verify] raises exactly when one of its three arguments holds a
    surrogate code point, wherever in the string it stands, also behind a null
    character; what it raises is a [UnicodeEncodeError], and the native
    function has not been called. *)
Theorem verify_raises_iff_surrogate (g : Globals) (address signature message : str) :
  let run := verify address signature message g in
  ((exists e, outcome_of run = Raise e)
   <-> existsb is_surrogate (address ++ signature ++ message) = true)
  /\ (forall e, outcome_of run = Raise e ->
        calls_of run = [] /\ exists object start, e = UnicodeEncodeError object start).
Proof.
  intro run. subst run.
  assert (Hbad : existsb is_surrogate (address ++ signature ++ message)
                 = negb (encodable address && encodable signature && encodable message)).
  { rewrite !existsb_app, !encodable_existsb, !negb_andb, !negb_involutive.
    rewrite orb_assoc. reflexivity. }
  rewrite Hbad.
  destruct (encodable address && encodable signature && encodable message) eqn:E.
  - apply andb_true_iff in E as [E Hm]. apply andb_true_iff in E as [Ha Hs].
    rewrite (verify_run_encodable g _ _ _ Ha Hs Hm).
    split; [split; [intros [e He]; discriminate He|discriminate]|].
    intros e He. discriminate He.
  - destruct (verify_run_refused g _ _ _ E) as (object & start & ->).
    split; [split; [reflexivity|eexists; reflexivity]|].
    intros e He. split; [reflexivity|].
    exists object, start. unfold outcome_of in He; cbn [fst] in He. congruence.
Qed.

(** ** X2: which argument the exception names

    X2: the arguments are encoded in the order address, signature, message,
    and the first one with a surrogate decides the exception: its object is
    that argument and its position the index of the first surrogate, except
    for the message, where the object is the wrapped string and the position
    is seven further on.  With no surrogate anywhere [verify] returns whether
    the native result is [1]. *)
Theorem verify_error_position (g : Globals) (address signature message : str) :
  outcome_of (verify address signature message g)
  = match first_surrogate address with
    | Some i => Raise (UnicodeEncodeError address i)
    | None =>
        match first_surrogate signature with
        | Some i => Raise (UnicodeEncodeError signature i)
        | None =>
            match first_surrogate message with
            | Some i => Raise (UnicodeEncodeError (wrapped_message message) (7 + i))
            | None =>
                Return (Byte.eqb (native_result (lib g) (utf8_bytes address)
                                    (utf8_bytes signature) (wrap (utf8_bytes message))) x01)
            end
        end
    end.
Proof.
  destruct (first_surrogate address) as [i|] eqn:Ea.
  { unfold verify, bind, global_lib, lift, encode.
    rewrite utf8_encode_from_first, Ea. reflexivity. }
  destruct (first_surrogate signature) as [i|] eqn:Es.
  { unfold verify, bind, global_lib, lift, encode.
    rewrite !utf8_encode_from_first, Ea, Es. reflexivity. }
  destruct (first_surrogate message) as [i|] eqn:Em.
  { unfold verify, bind, global_lib, lift, encode.
    rewrite !utf8_encode_from_first, Ea, Es, first_surrogate_wrapped, Em. reflexivity. }
  apply first_surrogate_None in Ea, Es, Em.
  rewrite (verify_run_encodable g _ _ _ Ea Es Em). reflexivity.
Qed.

Example verify_error_position_sample :
  outcome_of (verify (py_str "5Grw") (py_str "0xab") [0x61; 0xDC00] sample_globals)
  = Raise (UnicodeEncodeError (py_str "<Bytes>" ++ [0x61; 0xDC00] ++ py_str "</Bytes>") 8).
Proof. reflexivity. Qed.

Lemma c_string_cut (x y : bytes) : c_string (x ++ x00 :: y) = c_string x.
Proof.
  induction x as [|b x IH]; cbn [app c_string].
  - reflexivity.
  - destruct (Byte.eqb b x00); [reflexivity|]. rewrite IH. reflexivity.
Qed.

Lemma c_string_length (b : bytes) : (List.length (c_string b) <= List.length b)%nat.
Proof.
  induction b as [|x b IH]; cbn [c_string List.length]; [lia|].
  destruct (Byte.eqb x x00); cbn [List.length]; lia.
Qed.

Lemma utf8_bytes_length (s : str) :
  (List.length s <= List.length (utf8_bytes s) <= 4 * List.length s)%nat.
Proof.
  induction s as [|c s IH]; cbn [utf8_bytes flat_map List.length]; [lia|].
  fold (utf8_bytes s). rewrite length_app.
  pose proof (utf8_char_length c). lia.
Qed.

Lemma utf8_bytes_cut (p q : str) :
  utf8_bytes (p ++ 0 :: q) = utf8_bytes p ++ x00 :: utf8_bytes q.
Proof. rewrite utf8_bytes_app. reflexivity. Qed.

Lemma c_string_wrap_cut (p q : bytes) :
  c_string (wrap (p ++ x00 :: q)) = c_string (open_tag ++ p).
Proof.
  unfold wrap. rewrite <- app_assoc. cbn [app].
  rewrite app_assoc. apply c_string_cut.
Qed.

Ltac not_in_list :=
  let H := fresh in
  cbn; intro H; repeat (destruct H as [H|H]; [discriminate H|]); exact H.

(** ** X3: the shape of the native call

    X3: the three C strings of a call of the native function hold no null
    byte, the message among them starts with [<Bytes>], and it is the
    complete envelope of the encoded message exactly when the message holds
    no null character. *)
Theorem verify_call_shape (g : Globals) (address signature message : str) (c : ffi_call) :
  In c (calls_of (verify address signature message g)) ->
  exists a s m tail : bytes,
    c_args c = [a; s; m]
    /\ ~ In x00 a /\ ~ In x00 s /\ ~ In x00 m
    /\ m = open_tag ++ tail
    /\ (m = wrap (utf8_bytes message) <-> ~ In 0 message).
Proof.
  intro Hc.
  assert (Hcalls : calls_of (verify address signature message g) <> [])
    by (intro E; rewrite E in Hc; exact Hc).
  destruct (verify_calls_inv g _ _ _ Hcalls) as (Ha & Hs & Hm).
  rewrite (verify_run_encodable g _ _ _ Ha Hs Hm) in Hc.
  unfold calls_of in Hc; cbn [snd] in Hc. destruct Hc as [<-|[]].
  cbn [c_args verify_call]. unfold c_char_p.
  exists (c_string (utf8_bytes address)), (c_string (utf8_bytes signature)),
    (c_string (wrap (utf8_bytes message))), (c_string (utf8_bytes message ++ close_tag)).
  split; [reflexivity|].
  split; [apply c_string_out|]. split; [apply c_string_out|]. split; [apply c_string_out|].
  split; [unfold wrap; apply c_string_app; apply tags_no_null|].
  split.
  - intros E Hnull. apply (c_string_out (wrap (utf8_bytes message))).
    rewrite E. unfold wrap. apply in_or_app. right. apply in_or_app. left.
    apply utf8_bytes_null. exact Hnull.
  - intro Hnull. apply c_string_wrap_no_null. apply utf8_bytes_no_null. exact Hnull.
Qed.

Lemma verify_call_shape_witness :
  exists a s m tail : bytes,
    c_args (verify_call accept_all [x35] [] (wrap [x68; x00; x21])) = [a; s; m]
    /\ ~ In x00 a /\ ~ In x00 s /\ ~ In x00 m
    /\ m = open_tag ++ tail
    /\ (m = wrap (utf8_bytes [0x68; 0; 0x21]) <-> ~ In 0 [0x68; 0; 0x21]).
Proof.
  apply (verify_call_shape sample_globals [0x35] [] [0x68; 0; 0x21]).
  left. reflexivity.
Defined.

(** ** X4: what follows a null character is ignored

    X4: two messages that agree up to and including their first null
    character are verified alike, with the same outcome and the same native
    call, whatever follows the null; the same holds for two addresses and
    for two signatures. *)
Theorem verify_ignores_after_null (g : Globals) (address signature message p q q' : str) :
  encodable address = true -> encodable signature = true -> encodable message = true ->
  encodable (p ++ 0 :: q) = true -> encodable (p ++ 0 :: q') = true ->
  verify address signature (p ++ 0 :: q) g = verify address signature (p ++ 0 :: q') g
  /\ verify (p ++ 0 :: q) signature message g = verify (p ++ 0 :: q') signature message g
  /\ verify address (p ++ 0 :: q) message g = verify address (p ++ 0 :: q') message g.
Proof.
  intros Ha Hs Hm Hq Hq'.
  rewrite (verify_run_encodable g _ _ _ Ha Hs Hq), (verify_run_encodable g _ _ _ Ha Hs Hq').
  rewrite (verify_run_encodable g _ _ _ Hq Hs Hm), (verify_run_encodable g _ _ _ Hq' Hs Hm).
  rewrite (verify_run_encodable g _ _ _ Ha Hq Hm), (verify_run_encodable g _ _ _ Ha Hq' Hm).
  unfold native_result, verify_call, c_char_p.
  rewrite !utf8_bytes_cut, !c_string_wrap_cut, !c_string_cut.
  repeat split; reflexivity.
Qed.

Lemma verify_ignores_after_null_witness :
  verify (py_str "5Grw") (py_str "0xab") ([0x68; 0x69] ++ 0 :: [0x21]) sample_globals
  = verify (py_str "5Grw") (py_str "0xab") ([0x68; 0x69] ++ 0 :: [0x3F; 0x3F]) sample_globals
  /\ verify ([0x68; 0x69] ++ 0 :: [0x21]) (py_str "0xab") (py_str "hello") sample_globals
     = verify ([0x68; 0x69] ++ 0 :: [0x3F; 0x3F]) (py_str "0xab") (py_str "hello") sample_globals
  /\ verify (py_str "5Grw") ([0x68; 0x69] ++ 0 :: [0x21]) (py_str "hello") sample_globals
     = verify (py_str "5Grw") ([0x68; 0x69] ++ 0 :: [0x3F; 0x3F]) (py_str "hello") sample_globals.
Proof.
  apply (verify_ignores_after_null sample_globals (py_str "5Grw") (py_str "0xab")
           (py_str "hello") [0x68; 0x69] [0x21] [0x3F; 0x3F]); reflexivity.
Defined.

(** ** X5: messages without null do not collide

    X5: for messages of scalar values without a null character, the native
    call determines the message: two calls of [verify] that hand the native
    function the same arguments were given the same message. *)
Theorem verify_message_injective (g : Globals) (address signature m1 m2 : str) :
  encodable address = true -> encodable signature = true ->
  valid_str m1 = true -> valid_str m2 = true ->
  ~ In 0 m1 -> ~ In 0 m2 ->
  calls_of (verify address signature m1 g) = calls_of (verify address signature m2 g) ->
  m1 = m2.
Proof.
  intros Ha Hs H1 H2 N1 N2 E.
  rewrite (verify_run_encodable g _ _ _ Ha Hs (valid_str_encodable _ H1)) in E.
  rewrite (verify_run_encodable g _ _ _ Ha Hs (valid_str_encodable _ H2)) in E.
  unfold calls_of in E; cbn [snd] in E.
  assert (E3 : c_string (wrap (utf8_bytes m1)) = c_string (wrap (utf8_bytes m2))).
  { apply (f_equal (fun l => match l with
                             | [c] => nth 2 (c_args c) []
                             | _ => []
                             end)) in E.
    exact E. }
  rewrite !c_string_wrap_no_null in E3 by (apply utf8_bytes_no_null; assumption).
  unfold wrap in E3. apply app_inv_head in E3. apply app_inv_tail in E3.
  apply utf8_bytes_injective; assumption.
Qed.

Lemma verify_message_injective_witness : [0x68; 0x20AC] = [0x68; 0x20AC].
Proof.
  apply (verify_message_injective sample_globals (py_str "5Grw") (py_str "0xab")
           [0x68; 0x20AC] [0x68; 0x20AC]); try reflexivity; not_in_list.
Defined.

Lemma valid_str_app (s t : str) : valid_str (s ++ t) = valid_str s && valid_str t.
Proof. apply forallb_app. Qed.

Lemma valid_str_wrapped (message : str) :
  valid_str (wrapped_message message) = valid_str message.
Proof.
  rewrite wrapped_message_concat, !valid_str_app.
  change (valid_str (py_str "<Bytes>")) with true.
  change (valid_str (py_str "</Bytes>")) with true.
  rewrite andb_true_r. reflexivity.
Qed.

Lemma decode_utf8 (s : str) : valid_str s = true -> decode (utf8_bytes s) = Return s.
Proof. intro H. apply decode_utf8_bytes. exact H. Qed.

(** ** X6: the native arguments decode to the caller's strings

    X6: for arguments of scalar values without a null character, the C
    strings the native function receives decode to the address, the
    signature and the message in its envelope. *)
Theorem verify_arguments_decode_back (g : Globals) (address signature message : str) :
  valid_str address = true -> valid_str signature = true -> valid_str message = true ->
  ~ In 0 address -> ~ In 0 signature -> ~ In 0 message ->
  exists (a s m : bytes) (r : cvalue),
    calls_of (verify address signature message g)
    = [{| symbol := "verify_polkadot_signature"; c_args := [a; s; m]; c_result := r |}]
    /\ decode a = Return address
    /\ decode s = Return signature
    /\ decode m = Return (py_str "<Bytes>" ++ message ++ py_str "</Bytes>").
Proof.
  intros Va Vs Vm Na Ns Nm.
  rewrite (verify_run_encodable g _ _ _ (valid_str_encodable _ Va)
             (valid_str_encodable _ Vs) (valid_str_encodable _ Vm)).
  unfold calls_of, verify_call, c_char_p; cbn [snd].
  rewrite !c_string_no_null by (apply utf8_bytes_no_null; assumption).
  rewrite c_string_wrap_no_null by (apply utf8_bytes_no_null; assumption).
  eexists; eexists; eexists; eexists. split; [reflexivity|].
  split; [apply decode_utf8; exact Va|]. split; [apply decode_utf8; exact Vs|].
  rewrite <- utf8_bytes_wrapped, <- wrapped_message_concat.
  apply decode_utf8. rewrite valid_str_wrapped. exact Vm.
Qed.

Lemma verify_arguments_decode_back_witness :
  exists (a s m : bytes) (r : cvalue),
    calls_of (verify (py_str "5Grw") (py_str "0xab") [0x68; 0xE9; 0x20AC] sample_globals)
    = [{| symbol := "verify_polkadot_signature"; c_args := [a; s; m]; c_result := r |}]
    /\ decode a = Return (py_str "5Grw")
    /\ decode s = Return (py_str "0xab")
    /\ decode m = Return (py_str "<Bytes>" ++ [0x68; 0xE9; 0x20AC] ++ py_str "</Bytes>").
Proof.
  apply (verify_arguments_decode_back sample_globals (py_str "5Grw") (py_str "0xab")
           [0x68; 0xE9; 0x20AC]); try reflexivity; not_in_list.
Defined.

(** ** X7: decoding an encoding

    X7: a string of scalar values (no surrogate, nothing above U+10FFFF)
    encodes, and decoding the bytes gives the string back. *)
Theorem decode_encode_round_trip (s : str) :
  valid_str s = true ->
  exists b : bytes, encode s = Return b /\ decode b = Return s.
Proof.
  intro H. exists (utf8_bytes s). split.
  - apply encode_encodable. apply valid_str_encodable. exact H.
  - apply decode_utf8. exact H.
Qed.

Lemma decode_encode_round_trip_witness :
  exists b : bytes,
    encode [0x68; 0x20AC; 0x1F600] = Return b /\ decode b = Return [0x68; 0x20AC; 0x1F600].
Proof.
  apply (decode_encode_round_trip [0x68; 0x20AC; 0x1F600]). reflexivity.
Defined.

(** ** X8: encoding a decoding

    X8: when [decode] returns a string for some bytes, the string holds
    scalar values only and encodes to exactly those bytes: overlong forms,
    encoded surrogates and values above U+10FFFF are never decoded. *)
Theorem encode_decode_round_trip (b : bytes) (s : str) :
  decode b = Return s ->
  encode s = Return b /\ valid_str s = true.
Proof.
  intro H. destruct (decode_sound b s b 0%nat H) as [Hv Hu].
  split; [|exact Hv].
  rewrite encode_encodable by (apply valid_str_encodable; exact Hv).
  rewrite Hu. reflexivity.
Qed.

Lemma encode_decode_round_trip_witness :
  encode [0x20AC; 0x21] = Return [xe2; x82; xac; x21] /\ valid_str [0x20AC; 0x21] = true.
Proof.
  apply (encode_decode_round_trip [xe2; x82; xac; x21] [0x20AC; 0x21]). reflexivity.
Defined.

Lemma utf8_bytes_ascii_text (s : str) :
  ascii_text s = true -> utf8_bytes s = map byte_of_N s /\ ~ In 0 s.
Proof.
  induction s as [|c s IH]; cbn [ascii_text forallb]; intro H.
  - split; [reflexivity|intros []].
  - apply andb_true_iff in H as [Hc Hs]. apply andb_true_iff in Hc as [H0 H1].
    apply N.ltb_lt in H0. destruct (IH Hs) as [IHu IHn].
    split.
    + cbn [utf8_bytes flat_map map]. fold (utf8_bytes s). rewrite IHu.
      unfold utf8_char. rewrite H1. reflexivity.
    + intros [E|E]; [lia|exact (IHn E)].
Qed.

Lemma ascii_text_encodable (s : str) : ascii_text s = true -> encodable s = true.
Proof.
  unfold ascii_text, encodable. apply forallb_impl. intros c Hc.
  apply andb_true_iff in Hc as [_ Hc]. apply N.ltb_lt in Hc.
  unfold is_surrogate. destruct (N.leb_spec 0xD800 c); [lia|reflexivity].
Qed.

(** ** X9: ASCII arguments pass unchanged

    X9: for arguments of non-null ASCII characters, as SS58 addresses and
    hexadecimal signatures are, the native function receives the characters
    of the address and of the signature as bytes and the message between
    [<Bytes>] and [</Bytes>], and [verify] returns whether it answered
    [1]. *)
Theorem verify_ascii_passthrough (g : Globals) (address signature message : str) :
  ascii_text address = true -> ascii_text signature = true -> ascii_text message = true ->
  let a := map byte_of_N address in
  let s := map byte_of_N signature in
  let m := open_tag ++ map byte_of_N message ++ close_tag in
  let r := CDLL.verify_polkadot_signature (lib g) a s m in
  verify address signature message g
  = (Return (Byte.eqb r x01), g,
     [{| symbol := "verify_polkadot_signature"; c_args := [a; s; m]; c_result := CUInt8 r |}]).
Proof.
  intros Ta Ts Tm.
  destruct (utf8_bytes_ascii_text _ Ta) as [Ua Na].
  destruct (utf8_bytes_ascii_text _ Ts) as [Us Ns].
  destruct (utf8_bytes_ascii_text _ Tm) as [Um Nm].
  rewrite (verify_run_encodable g _ _ _ (ascii_text_encodable _ Ta)
             (ascii_text_encodable _ Ts) (ascii_text_encodable _ Tm)).
  unfold native_result, verify_call, c_char_p.
  rewrite !c_string_no_null by (apply utf8_bytes_no_null; assumption).
  rewrite c_string_wrap_no_null by (apply utf8_bytes_no_null; assumption).
  rewrite Ua, Us, Um. reflexivity.
Qed.

Lemma verify_ascii_passthrough_witness :
  verify (py_str "5Grw") (py_str "0xab") (py_str "hello") two_globals
  = (Return false, two_globals,
     [{| symbol := "verify_polkadot_signature";
         c_args := [py_bytes "5Grw"; py_bytes "0xab"; py_bytes "<Bytes>hello</Bytes>"];
         c_result := CUInt8 x02 |}]).
Proof.
  apply (verify_ascii_passthrough two_globals (py_str "5Grw") (py_str "0xab")
           (py_str "hello")); reflexivity.
Defined.

(** ** X10: the size of the native arguments

    X10: the address and the signature reach the native function with at most
    four bytes for each character, the message with at least the seven bytes
    of the opening tag and at most four bytes for each character plus the
    fifteen of the two tags. *)
Theorem verify_argument_lengths (g : Globals) (address signature message : str)
    (c : ffi_call) :
  In c (calls_of (verify address signature message g)) ->
  exists a s m : bytes,
    c_args c = [a; s; m]
    /\ (List.length a <= 4 * List.length address)%nat
    /\ (List.length s <= 4 * List.length signature)%nat
    /\ (7 <= List.length m <= 4 * List.length message + 15)%nat.
Proof.
  intro Hc.
  assert (Hcalls : calls_of (verify address signature message g) <> [])
    by (intro E; rewrite E in Hc; exact Hc).
  destruct (verify_calls_inv g _ _ _ Hcalls) as (Ha & Hs & Hm).
  rewrite (verify_run_encodable g _ _ _ Ha Hs Hm) in Hc.
  unfold calls_of in Hc; cbn [snd] in Hc. destruct Hc as [<-|[]].
  cbn [c_args verify_call]. unfold c_char_p.
  eexists; eexists; eexists. split; [reflexivity|].
  pose proof (c_string_length (utf8_bytes address)).
  pose proof (c_string_length (utf8_bytes signature)).
  pose proof (c_string_length (wrap (utf8_bytes message))) as Hw.
  pose proof (utf8_bytes_length address). pose proof (utf8_bytes_length signature).
  pose proof (utf8_bytes_length message).
  unfold wrap in Hw |- *. rewrite !length_app in Hw.
  change (List.length open_tag) with 7%nat in Hw.
  change (List.length close_tag) with 8%nat in Hw.
  split; [lia|]. split; [lia|]. split; [|lia].
  rewrite c_string_app by apply tags_no_null.
  rewrite length_app. change (List.length open_tag) with 7%nat. lia.
Qed.

Lemma verify_argument_lengths_witness :
  exists a s m : bytes,
    c_args (verify_call accept_all [xe2; x82; xac] [] (wrap [x00; x21])) = [a; s; m]
    /\ (List.length a <= 4 * List.length [0x20AC])%nat
    /\ (List.length s <= 4 * List.length (@nil codepoint))%nat
    /\ (7 <= List.length m <= 4 * List.length [0; 0x21] + 15)%nat.
Proof.
  apply (verify_argument_lengths sample_globals [0x20AC] [] [0; 0x21]).
  left. reflexivity.
Defined.

Lemma cons_outcome_Raise (c : codepoint) (o : outcome str) (e : exn) :
  cons_outcome c o = Raise e -> o = Raise e.
Proof. destruct o; cbn; intro H; [discriminate H|exact H]. Qed.

(** The decoder raises nothing but [UnicodeDecodeError], on the object it was
    given. *)
Lemma utf8_decode_from_raises (object : bytes) (n : nat) :
  forall (bs : bytes) (pos : nat) (e : exn),
    (List.length bs <= n)%nat ->
    utf8_decode_from object pos bs = Raise e ->
    exists start, e = UnicodeDecodeError object start.
Proof.
  induction n as [|n IH]; intros bs pos e Hn.
  - destruct bs; [discriminate|cbn [List.length] in Hn; lia].
  - destruct bs as [|b0 r0]; [discriminate|].
    cbn [utf8_decode_from]. cbv zeta. cbn [List.length] in Hn.
    repeat match goal with
           | |- context [if ?t then _ else _] => destruct t
           | |- context [match ?l with [] => _ | _ :: _ => _ end] =>
               destruct l; cbn [List.length] in Hn
           end;
      intro H;
      try (exists pos; congruence);
      apply cons_outcome_Raise in H; apply IH in H; try exact H; lia.
Qed.

Lemma decode_raises (b : bytes) (e : exn) :
  decode b = Raise e -> exists start, e = UnicodeDecodeError b start.
Proof. apply (utf8_decode_from_raises b (List.length b)). lia. Qed.

Lemma get_version_run_any (g : Globals) :
  get_version g
  = (match CDLL.get_version (lib g) tt with
     | Some buf => decode (c_string buf)
     | None => Raise AttributeError
     end, g, [get_version_call (CDLL.get_version (lib g) tt)]).
Proof.
  unfold get_version, bind, global_lib, call_get_version, bind, foreign, ret.
  cbn. destruct (CDLL.get_version (lib g) tt) as [buf|]; cbn.
  - unfold lift. destruct (decode (c_string buf)); reflexivity.
  - reflexivity.
Qed.

(** ** X11: when [get_version] returns

    X11: [get_version] returns the string [s] exactly when the library hands
    back a non-null pointer and [s] is the string of scalar values whose
    encoding is the C string found there; a returned version holds no null
    character. *)
Theorem get_version_returns_iff (g : Globals) (s : str) :
  (outcome_of (get_version g) = Return s
   <-> exists buf, CDLL.get_version (lib g) tt = Some buf
                   /\ valid_str s = true /\ encode s = Return (c_string buf))
  /\ (outcome_of (get_version g) = Return s -> ~ In 0 s).
Proof.
  rewrite get_version_run_any. unfold outcome_of; cbn [fst].
  assert (Hfwd : match CDLL.get_version (lib g) tt with
                 | Some buf => decode (c_string buf)
                 | None => Raise AttributeError
                 end = Return s ->
                 exists buf, CDLL.get_version (lib g) tt = Some buf
                             /\ valid_str s = true /\ encode s = Return (c_string buf)).
  { destruct (CDLL.get_version (lib g) tt) as [buf|]; [|discriminate].
    intro H. destruct (decode_sound _ _ _ _ H) as [Hv Hu].
    exists buf. split; [reflexivity|]. split; [exact Hv|].
    rewrite encode_encodable by (apply valid_str_encodable; exact Hv).
    rewrite Hu. reflexivity. }
  split; [split; [exact Hfwd|]|].
  - intros (buf & -> & Hv & He).
    apply encode_Return_inv in He as [_ He]. rewrite He. apply decode_utf8. exact Hv.
  - intros H Hnull. destruct (Hfwd H) as (buf & _ & _ & He).
    apply encode_Return_inv in He as [_ He].
    apply (c_string_out buf). rewrite He. apply utf8_bytes_null. exact Hnull.
Qed.

(** ** X12: a version buffer with a null byte

    X12: when the buffer the library points to holds a null byte,
    [get_version] decodes the bytes before the first one and nothing
    else. *)
Theorem get_version_stops_at_null (g : Globals) (pre post : bytes) :
  CDLL.get_version (lib g) tt = Some (pre ++ x00 :: post) ->
  ~ In x00 pre ->
  outcome_of (get_version g) = decode pre.
Proof.
  intros Hp Hpre. rewrite get_version_run_any, Hp. unfold outcome_of; cbn [fst].
  rewrite c_string_truncates by exact Hpre. reflexivity.
Qed.

Lemma get_version_stops_at_null_witness :
  outcome_of (get_version padded_globals) = decode (py_bytes "0.1.0").
Proof.
  apply (get_version_stops_at_null padded_globals (py_bytes "0.1.0") (py_bytes "rc")).
  - reflexivity.
  - not_in_list.
Defined.

(** ** X13: how [get_version] fails

    X13: [get_version] leaves the globals as they are and makes one foreign
    call, to [get_version] without arguments, whether it returns or raises;
    it raises [AttributeError] exactly when the library returns a null
    pointer, and otherwise nothing but a [UnicodeDecodeError] on the C
    string. *)
Theorem get_version_errors (g : Globals) :
  let run := get_version g in
  globals_of run = g
  /\ calls_of run = [{| symbol := "get_version"; c_args := [];
                       c_result := CCharP (CDLL.get_version (lib g) tt) |}]
  /\ (outcome_of run = Raise AttributeError <-> CDLL.get_version (lib g) tt = None)
  /\ (forall e, outcome_of run = Raise e ->
        e = AttributeError
        \/ exists buf start, CDLL.get_version (lib g) tt = Some buf
                             /\ e = UnicodeDecodeError (c_string buf) start).
Proof.
  intro run. subst run. rewrite get_version_run_any.
  unfold globals_of, calls_of, outcome_of; cbn [fst snd].
  split; [reflexivity|]. split; [reflexivity|].
  destruct (CDLL.get_version (lib g) tt) as [buf|].
  - split.
    + split; [|discriminate]. intro H. apply decode_raises in H as [start H].
      discriminate H.
    + intros e H. right. apply decode_raises in H as [start ->].
      exists buf, start. split; reflexivity.
  - split; [split; reflexivity|]. intros e H. left. congruence.
Qed.
